(** * FiWriter workflow engine: the DAG runner

    A shallow embedding of [src/workflows/dag-runner.ts] (class [DAGRunner])
    and of the workflow types of [src/core/types.ts], with the properties of
    the run loop, of edge resolution, of breakpoints and of cancellation. *)

From Stdlib Require Import ZArith Lia List.
From stdpp Require Import base option list strings gmap pretty.
Import ListNotations.

Local Open Scope Z_scope.
Local Open Scope string_scope.

(** ** JavaScript values held by a workflow state

    [WorkflowState] is [{ [key: string]: any }].  The runner only inspects
    one property, [__breakpoint], and only for its truthiness; objects and
    arrays are kept opaque (they are all truthy), numbers are integers. *)

Inductive JsValue : Type :=
  | JsUndefined
  | JsNull
  | JsBool (b : bool)
  | JsNumber (n : Z)
  | JsString (s : string)
  | JsObject (ref : positive).

(** ToBoolean. *)
Definition truthy (v : JsValue) : bool :=
  match v with
  | JsUndefined | JsNull => false
  | JsBool b => b
  | JsNumber n => negb (Z.eqb n 0)
  | JsString s => negb (String.eqb s "")
  | JsObject _ => true
  end.

Definition WorkflowNodeId : Type := string.

Abbreviation WorkflowState := (gmap string JsValue).

(** Property read [state[key]]: a missing key reads as [undefined]. *)
Definition getProp (state : WorkflowState) (key : string) : JsValue :=
  default JsUndefined (state !! key).

Definition BREAKPOINT : string := "__breakpoint".

(** ** Exceptions

    A thrown value, seen through the two things the [catch] block of [run]
    reads: [err.message] (empty when absent or empty, both falsy) and
    [String(err)].  [JsError] holds the thrown values on which both reads
    give a string: [Error] objects, strings, numbers, plain objects.  It
    does not hold [null] and [undefined], on which the read of [err.message]
    throws a [TypeError] out of the [catch] block, so that [run] rejects and
    returns no result; nor values whose [message] is not a string or which
    [String] cannot convert.  The statements about exceptions are about the
    thrown values of [JsError]. *)

Record JsError : Type := mkJsError {
  message : string;
  description : string
}.

(** [new Error(msg)] *)
Definition newError (msg : string) : JsError :=
  {| message := msg;
     description := if String.eqb msg "" then "Error" else "Error: " ++ msg |}.

(** [err.message || String(err)] *)
Definition errorText (err : JsError) : string :=
  if String.eqb (message err) "" then description err else message err.

(** Outcome of a call that may throw, or of an awaited promise that may
    reject.  [onProgress] is called and not awaited: for it [Throws] is a
    synchronous throw, and a promise it returns, rejected or not, is a
    value it returns. *)
Inductive Completion (A : Type) : Type :=
  | Normal (a : A)
  | Throws (err : JsError).
Arguments Normal {A} a.
Arguments Throws {A} err.

Inductive WorkflowStatus : Type :=
  | Idle | Running | Paused | Completed | Error | Cancelled.

Record WorkflowRunResult : Type := mkResult {
  status : WorkflowStatus;
  finalState : WorkflowState;
  error : option string;
  nodesVisited : list WorkflowNodeId
}.

(** Edges carry a synchronous predicate, [(state) => boolean], taken to be
    a function of the state that returns: a condition that throws (one that
    reads a property of a missing field, say) is outside this type. *)
Record WorkflowEdge : Type := mkEdge {
  from : WorkflowNodeId;
  to : WorkflowNodeId;
  condition : option (WorkflowState -> bool)
}.

(** ** The calls [run] makes, in order (ghost trace) *)

Inductive Event : Type :=
  | EvStatus (s : WorkflowStatus)
  | EvExecute (id : WorkflowNodeId) (input : WorkflowState)
              (out : Completion WorkflowState)
  | EvProgress (id : WorkflowNodeId) (st : WorkflowState)
               (out : Completion unit)
  | EvBreakpoint (id : WorkflowNodeId) (st : WorkflowState)
                 (out : Completion WorkflowState).

Section Engine.

(** Everything outside the runner: the language model, the knowledge store,
    the retrieval index, the user (who may press cancel or answer a
    breakpoint), the clock.  Asynchronous callbacks read it and change it. *)
Context {World : Type}.

Definition Async (A : Type) : Type := World -> World * Completion A.

(** [llm], [kg] and [rag] are used by the steps alone; what they answer is
    part of the world.  Steps and callbacks treat the state they are given
    as a value: they return a state and do not write into the one passed
    in. *)
Record WorkflowContext : Type := mkContext {
  (** [signal?: AbortSignal], read through [signal.aborted] *)
  signal : option (World -> bool);
  onProgress : option (WorkflowNodeId -> WorkflowState -> Async unit);
  onBreakpoint : option (WorkflowNodeId -> WorkflowState -> Async WorkflowState)
}.

Record WorkflowNode : Type := mkNode {
  id : WorkflowNodeId;
  name : string;
  execute : WorkflowState -> WorkflowContext -> Async WorkflowState
}.

(** [maxIterations?: number], an integer. *)
Record WorkflowGraph : Type := mkGraph {
  graphId : string;
  graphName : string;
  entryNode : WorkflowNodeId;
  nodes : list WorkflowNode;
  edges : list WorkflowEdge;
  maxIterations : option Z
}.

Definition DEFAULT_MAX_ITERATIONS : Z := 50.

(** ** The runner *)

(** [private graph] *)
Variable graph : WorkflowGraph.

(** [this.graph.maxIterations ?? DEFAULT_MAX_ITERATIONS] *)
Definition maxIter : Z := default DEFAULT_MAX_ITERATIONS (maxIterations graph).

(** [this.graph.nodes.find((n) => n.id === id)] *)
Definition findNode (i : WorkflowNodeId) : option WorkflowNode :=
  List.find (fun n => String.eqb (id n) i) (nodes graph).

(** The [for (const edge of edges)] scan of [resolveNextNode]. *)
Fixpoint firstMatching (es : list WorkflowEdge) (state : WorkflowState)
  : option WorkflowNodeId :=
  match es with
  | [] => None
  | edge :: rest =>
      match condition edge with
      | Some cond => if cond state then Some (to edge) else firstMatching rest state
      | None => firstMatching rest state
      end
  end.

Definition isUnconditional (e : WorkflowEdge) : bool :=
  match condition e with None => true | Some _ => false end.

Definition resolveNextNode (fromId : WorkflowNodeId) (state : WorkflowState)
  : option WorkflowNodeId :=
  let es := List.filter (fun e => String.eqb (from e) fromId) (edges graph) in
  match es with
  | [] => None
  | _ =>
      match firstMatching es state with
      | Some target => Some target
      | None =>
          match List.find isUnconditional es with
          | Some unconditional => Some (to unconditional)
          | None => None
          end
      end
  end.

(** ** Mutable state of one call of [run]

    The runner object has one field, [status]; the world changes under the
    awaited calls; the trace records what was called, and with what. *)

Record Machine : Type := mkMachine {
  world : World;
  runnerStatus : WorkflowStatus;
  trace : list Event
}.

(** [getStatus()] *)
Definition getStatus (m : Machine) : WorkflowStatus := runnerStatus m.

(** [this.status = s] *)
Definition setStatus (s : WorkflowStatus) (m : Machine) : Machine :=
  {| world := world m; runnerStatus := s; trace := trace m ++ [EvStatus s] |}.

Definition emit (w : World) (ev : Event) (m : Machine) : Machine :=
  {| world := w; runnerStatus := runnerStatus m; trace := trace m ++ [ev] |}.

(** The local variables of [run]. *)
Record Locals : Type := mkLocals {
  currentNodeId : option WorkflowNodeId;
  state : WorkflowState;
  iterations : Z;
  visited : list WorkflowNodeId
}.

Definition withState (s : WorkflowState) (l : Locals) : Locals :=
  {| currentNodeId := currentNodeId l; state := s;
     iterations := iterations l; visited := visited l |}.

(** [nodesVisited.push(id)] *)
Definition pushVisited (i : WorkflowNodeId) (l : Locals) : Locals :=
  {| currentNodeId := currentNodeId l; state := state l;
     iterations := iterations l; visited := visited l ++ [i] |}.

(** [currentNodeId = next; iterations++] *)
Definition advance (next : option WorkflowNodeId) (l : Locals) : Locals :=
  {| currentNodeId := next; state := state l;
     iterations := iterations l + 1; visited := visited l |}.

(** How a stretch of the loop body ends: it falls through to the next
    statement, it executes [return], or an exception escapes to the [catch]
    (which reads the locals as they are at that point). *)
Inductive Flow : Type :=
  | Next (l : Locals)
  | Return (r : WorkflowRunResult)
  | Raise (err : JsError) (l : Locals).

Definition andThen (first : Machine * Flow)
    (rest : Locals -> Machine -> Machine * Flow) : Machine * Flow :=
  match first with
  | (m, Next l) => rest l m
  | (m, Return r) => (m, Return r)
  | (m, Raise err l) => (m, Raise err l)
  end.

(** [context] argument of [run] *)
Variable context : WorkflowContext.

(** [context.signal?.aborted] *)
Definition signalAborted (w : World) : bool :=
  match signal context with
  | Some aborted => aborted w
  | None => false
  end.

(** [{ status: 'cancelled', finalState: state, nodesVisited }] *)
Definition cancelledResult (l : Locals) : WorkflowRunResult :=
  {| status := Cancelled; finalState := state l; error := None;
     nodesVisited := visited l |}.

(** Lines 47-50 and 74-77: the cancellation check. *)
Definition checkCancelled (l : Locals) (m : Machine) : Machine * Flow :=
  if signalAborted (world m)
  then (setStatus Cancelled m, Return (cancelledResult l))
  else (m, Next l).

(** Lines 52-60: look the node up, record the visit, await its step. *)
Definition executeNode (i : WorkflowNodeId) (l : Locals) (m : Machine)
  : Machine * Flow :=
  match findNode i with
  | None => (m, Raise (newError ("Node not found: " ++ i)) l)
  | Some node =>
      let l1 := pushVisited i l in
      let '(w, out) := execute node (state l1) context (world m) in
      let m1 := emit w (EvExecute i (state l1) out) m in
      match out with
      | Normal s => (m1, Next (withState s l1))
      | Throws err => (m1, Raise err l1)
      end
  end.

(** Lines 63-65: the progress callback. *)
Definition reportProgress (i : WorkflowNodeId) (l : Locals) (m : Machine)
  : Machine * Flow :=
  match onProgress context with
  | None => (m, Next l)
  | Some callback =>
      let '(w, out) := callback i (state l) (world m) in
      let m1 := emit w (EvProgress i (state l) out) m in
      match out with
      | Normal _ => (m1, Next l)
      | Throws err => (m1, Raise err l)
      end
  end.

(** Lines 68-78: the breakpoint. *)
Definition checkBreakpoint (i : WorkflowNodeId) (l : Locals) (m : Machine)
  : Machine * Flow :=
  match onBreakpoint context with
  | None => (m, Next l)
  | Some handler =>
      if truthy (getProp (state l) BREAKPOINT) then
        let m1 := setStatus Paused m in
        let l1 := withState (delete BREAKPOINT (state l)) l in
        let '(w, out) := handler i (state l1) (world m1) in
        let m2 := emit w (EvBreakpoint i (state l1) out) m1 in
        match out with
        | Throws err => (m2, Raise err l1)
        | Normal s => checkCancelled (withState s l1) (setStatus Running m2)
        end
      else (m, Next l)
  end.

(** Lines 47-82: one pass through the body of the [while].  Line 81 is
    inside the [try] as well; edge conditions being functions that return,
    it raises nothing here. *)
Definition iteration (i : WorkflowNodeId) (l : Locals) (m : Machine)
  : Machine * Flow :=
  andThen (checkCancelled l m) (fun l m =>
  andThen (executeNode i l m) (fun l m =>
  andThen (reportProgress i l m) (fun l m =>
  andThen (checkBreakpoint i l m) (fun l m =>
  (m, Next (advance (resolveNextNode i (state l)) l)))))).

(** Line 46: [while (currentNodeId !== null && iterations < maxIter)].
    The recursion is on [budget], the number of passes the guard can still
    admit; [run] starts it at [maxIter - iterations], and [while_unfold]
    below shows that this is the loop of the source. *)
Fixpoint while (budget : nat) (l : Locals) (m : Machine) : Machine * Flow :=
  match currentNodeId l, budget with
  | Some i, S budget' =>
      andThen (iteration i l m) (while budget')
  | _, _ => (m, Next l)
  end.

(** Lines 85-96: after the loop. *)
Definition afterLoop (l : Locals) (m : Machine) : Machine * WorkflowRunResult :=
  if (iterations l >=? maxIter)%Z then
    (setStatus Error m,
     {| status := Error; finalState := state l;
        error := Some ("Max iterations (" ++ pretty maxIter ++ ") exceeded");
        nodesVisited := visited l |})
  else
    (setStatus Completed m,
     {| status := Completed; finalState := state l; error := None;
        nodesVisited := visited l |}).

(** Lines 97-105: the [catch], on a thrown value of [JsError].  The status
    is written first, the result built next. *)
Definition catch (err : JsError) (l : Locals) (m : Machine)
  : Machine * WorkflowRunResult :=
  (setStatus Error m,
   {| status := Error; finalState := state l; error := Some (errorText err);
      nodesVisited := visited l |}).

(** Lines 38-41. [{ ...initialState }] is a copy with the same own
    properties, which for a map is the map. *)
Definition initialLocals (initialState : WorkflowState) : Locals :=
  {| currentNodeId := Some (entryNode graph); state := initialState;
     iterations := 0; visited := [] |}.

Definition run (initialState : WorkflowState) (m : Machine)
  : Machine * WorkflowRunResult :=
  let l := initialLocals initialState in
  match while (Z.to_nat (maxIter - iterations l)) l (setStatus Running m) with
  | (m', Next l') => afterLoop l' m'
  | (m', Return r) => (m', r)
  | (m', Raise err l') => catch err l' m'
  end.

End Engine.

(** ** Concrete pipelines

    The world of these examples is a clock counting the awaits that have
    completed; a cancel button pressed at time [t] is a signal that reads
    aborted from [t] on. *)

Module Examples.

Definition Clock : Type := nat.

Definition boot (now : Clock) : @Machine Clock :=
  {| world := now; runnerStatus := Idle; trace := [] |}.
Arguments boot now%_nat_scope.

(** A step that takes one tick and returns [f state]. *)
Definition stepReturning (f : WorkflowState -> WorkflowState)
  : WorkflowState -> @WorkflowContext Clock -> @Async Clock WorkflowState :=
  fun s _ now => (S now, Normal (f s)).

(** A step that takes one tick and rejects. *)
Definition stepThrowing (err : JsError)
  : WorkflowState -> @WorkflowContext Clock -> @Async Clock WorkflowState :=
  fun _ _ now => (S now, Throws err).

Definition draftNode : @WorkflowNode Clock :=
  {| id := "draft"; name := "Generate Draft";
     execute := stepReturning (insert "draft" (JsString "It was a dark night.")) |}.

Definition reviewNode : @WorkflowNode Clock :=
  {| id := "review"; name := "Ask for review";
     execute := stepReturning (insert BREAKPOINT (JsBool true)) |}.

Definition finalizeNode : @WorkflowNode Clock :=
  {| id := "finalize"; name := "Finalize Output";
     execute := stepReturning (insert "final" (JsBool true)) |}.

Definition failingNode : @WorkflowNode Clock :=
  {| id := "continuity"; name := "Continuity Check";
     execute := stepThrowing (newError "LLM request failed") |}.

(** A step that rejects with [new Error('')]. *)
Definition silentNode : @WorkflowNode Clock :=
  {| id := "continuity"; name := "Continuity Check";
     execute := stepThrowing (newError "") |}.

(** One node, no edges. *)
Definition singleNode (bound : option Z) : @WorkflowGraph Clock :=
  {| graphId := "single"; graphName := "Single node";
     entryNode := "draft"; nodes := [draftNode]; edges := [];
     maxIterations := bound |}.

(** The review node alone. *)
Definition reviewOnly : @WorkflowGraph Clock :=
  {| graphId := "review-only"; graphName := "Review";
     entryNode := "review"; nodes := [reviewNode]; edges := [];
     maxIterations := None |}.

(** review -> finalize *)
Definition reviewGraph : @WorkflowGraph Clock :=
  {| graphId := "review"; graphName := "Review then finalize";
     entryNode := "review"; nodes := [reviewNode; finalizeNode];
     edges := [ {| from := "review"; to := "finalize"; condition := None |} ];
     maxIterations := None |}.

(** draft -> continuity (which fails) -> finalize *)
Definition failingGraph : @WorkflowGraph Clock :=
  {| graphId := "failing"; graphName := "Draft, check, finalize";
     entryNode := "draft"; nodes := [draftNode; failingNode; finalizeNode];
     edges := [ {| from := "draft"; to := "continuity"; condition := None |};
                {| from := "continuity"; to := "finalize"; condition := None |} ];
     maxIterations := Some 20 |}.

(** draft -> continuity (which fails without a message) *)
Definition silentGraph : @WorkflowGraph Clock :=
  {| graphId := "silent"; graphName := "Draft, check";
     entryNode := "draft"; nodes := [draftNode; silentNode];
     edges := [ {| from := "draft"; to := "continuity"; condition := None |} ];
     maxIterations := None |}.

(** A two-node cycle with no exit edge. *)
Definition cycleGraph (bound : option Z) : @WorkflowGraph Clock :=
  {| graphId := "cycle"; graphName := "Draft and review forever";
     entryNode := "draft"; nodes := [draftNode; finalizeNode];
     edges := [ {| from := "draft"; to := "finalize"; condition := None |};
                {| from := "finalize"; to := "draft"; condition := None |} ];
     maxIterations := bound |}.

Definition hasDraft (s : WorkflowState) : bool := truthy (getProp s "draft").
Definition never (_ : WorkflowState) : bool := false.

(** An entry with a default edge declared before two conditioned ones. *)
Definition branchEdges : list WorkflowEdge :=
  [ {| from := "draft"; to := "fallback"; condition := None |};
    {| from := "other"; to := "elsewhere"; condition := Some hasDraft |};
    {| from := "draft"; to := "skipped"; condition := Some never |};
    {| from := "draft"; to := "finalize"; condition := Some hasDraft |};
    {| from := "draft"; to := "late"; condition := Some hasDraft |} ].

Definition branchGraph : @WorkflowGraph Clock :=
  {| graphId := "branch"; graphName := "Branching";
     entryNode := "draft"; nodes := [draftNode; finalizeNode];
     edges := branchEdges; maxIterations := None |}.

Definition quiet : @WorkflowContext Clock :=
  {| signal := None; onProgress := None; onBreakpoint := None |}.

Definition cancelAt (t : Clock) (now : Clock) : bool := Nat.leb t now.

Definition cancelledFrom (t : Clock) : @WorkflowContext Clock :=
  {| signal := Some (cancelAt t); onProgress := None; onBreakpoint := None |}.
Arguments cancelledFrom t%_nat_scope.

Definition withProgress : @WorkflowContext Clock :=
  {| signal := None;
     onProgress := Some (fun _ _ now => (now, Normal tt));
     onBreakpoint := None |}.

Definition brokenProgress : @WorkflowContext Clock :=
  {| signal := None;
     onProgress := Some (fun _ _ now => (now, Throws (newError "panel closed")));
     onBreakpoint := None |}.

(** The author is asked, takes one tick and approves. *)
Definition approve : WorkflowNodeId -> WorkflowState -> @Async Clock WorkflowState :=
  fun _ s now => (S now, Normal (<["approved" := JsBool true]> s)).

Definition reviewed (cancel : option Clock) : @WorkflowContext Clock :=
  {| signal := cancelAt <$> cancel;
     onProgress := None;
     onBreakpoint := Some approve |}.

Definition marked : WorkflowState := {[ BREAKPOINT := JsBool true ]}.

Definition drafted : WorkflowState :=
  {[ "draft" := JsString "It was a dark night." ]}.

Definition reviewedBrokenProgress : @WorkflowContext Clock :=
  {| signal := None;
     onProgress := Some (fun _ _ now => (now, Throws (newError "panel closed")));
     onBreakpoint := Some approve |}.

End Examples.

(** ** Vocabulary of the statements *)

(** The edge leaves [fromId] and its condition is present and true. *)
Definition satisfiedb (fromId : WorkflowNodeId) (s : WorkflowState)
    (e : WorkflowEdge) : bool :=
  String.eqb (from e) fromId &&
  match condition e with Some cond => cond s | None => false end.

(** The edge leaves [fromId] and has no condition. *)
Definition defaultb (fromId : WorkflowNodeId) (e : WorkflowEdge) : bool :=
  String.eqb (from e) fromId && isUnconditional e.

(** [e] is the first element of [l], in order, that has property [p]. *)
Definition firstSuch {A : Type} (p : A -> bool) (l : list A) (e : A) : Prop :=
  exists before after,
    l = (before ++ e :: after)%list /\ p e = true /\
    forall e', In e' before -> p e' = false.

(** The visited list and the state a flow hands to the code after the loop:
    the locals for a fall-through or an exception, the result for a
    [return]. *)
Definition flowVisited (f : Flow) : list WorkflowNodeId :=
  match f with
  | Next l | Raise _ l => visited l
  | Return r => nodesVisited r
  end.

Definition flowState (f : Flow) : WorkflowState :=
  match f with
  | Next l | Raise _ l => state l
  | Return r => finalState r
  end.

(** Ids of the nodes whose step was called, in call order. *)
Fixpoint executedIds (t : list Event) : list WorkflowNodeId :=
  match t with
  | [] => []
  | EvExecute i _ _ :: t' => i :: executedIds t'
  | _ :: t' => executedIds t'
  end.

(** The callback call an event records, when that call threw: the node, the
    state passed in, the exception. *)
Definition failure (ev : Event)
  : option (WorkflowNodeId * WorkflowState * JsError) :=
  match ev with
  | EvExecute i s (Throws err) => Some (i, s, err)
  | EvProgress i s (Throws err) => Some (i, s, err)
  | EvBreakpoint i s (Throws err) => Some (i, s, err)
  | _ => None
  end.

(** A flow accounts for a trace when its visited list is the list of the
    steps called and when a callback that threw is what ended it: the
    exception escaped with the locals holding the state that callback was
    given, the callback's node being the last one visited. *)
Definition accounted {World : Type} (m : @Machine World) (f : Flow) : Prop :=
  flowVisited f = executedIds (trace m) /\
  match omap failure (trace m) with
  | [] => True
  | fs => exists i err l, f = Raise err l /\ fs = [(i, state l, err)] /\
                          last (visited l) = Some i
  end.

(** What [onProgress] adds to the trace for node [i] and state [s] when it
    returns normally. *)
Definition progressEvents {World : Type} (context : @WorkflowContext World)
    (i : WorkflowNodeId) (s : WorkflowState) : list Event :=
  match onProgress context with
  | None => []
  | Some _ => [EvProgress i s (Normal tt)]
  end.

(** [onProgress], if configured, returns normally for node [i] and state
    [s], taking the world from [w] to [w']. *)
Definition progressReturns {World : Type} (context : @WorkflowContext World)
    (i : WorkflowNodeId) (s : WorkflowState) (w w' : World) : Prop :=
  match onProgress context with
  | None => w' = w
  | Some callback => callback i s w = (w', Normal tt)
  end.

(** Two worlds related by [R] cannot be told apart by the run: the signal
    reads the same in both, and every step, progress callback and breakpoint
    handler completes the same way in both and leaves them related. *)
Record deterministic {World : Type} (graph : @WorkflowGraph World)
    (context : @WorkflowContext World) (R : World -> World -> Prop) : Prop := {
  same_signal : forall w1 w2, R w1 w2 ->
    signalAborted context w1 = signalAborted context w2;
  same_execute : forall node s w1 w2, In node (nodes graph) -> R w1 w2 ->
    (execute node s context w1).2 = (execute node s context w2).2 /\
    R (execute node s context w1).1 (execute node s context w2).1;
  same_progress : forall callback i s w1 w2,
    onProgress context = Some callback -> R w1 w2 ->
    (callback i s w1).2 = (callback i s w2).2 /\
    R (callback i s w1).1 (callback i s w2).1;
  same_breakpoint : forall handler i s w1 w2,
    onBreakpoint context = Some handler -> R w1 w2 ->
    (handler i s w1).2 = (handler i s w2).2 /\
    R (handler i s w1).1 (handler i s w2).1
}.

(** Two outcomes of a stretch of the loop agree: same flow, related
    worlds. *)
Definition agree {World : Type} (R : World -> World -> Prop)
    (x1 x2 : @Machine World * Flow) : Prop :=
  x1.2 = x2.2 /\ R (world x1.1) (world x2.1).

(** Lines 85-105: what [run] makes of the way the loop ended. *)
Definition finish {World : Type} (graph : @WorkflowGraph World)
    (x : @Machine World * Flow) : @Machine World * WorkflowRunResult :=
  match x with
  | (m, Next l) => afterLoop graph l m
  | (m, Return r) => (m, r)
  | (m, Raise err l) => catch err l m
  end.

(** Line 46 evaluated as it is written: the guard is tested before every
    pass, and only the guard, a [return] or an exception ends the loop.
    [gas] bounds the evaluation, one unit for each pass through the body,
    and is no part of the program: [None] means that the loop is still
    going when it is spent. *)
Fixpoint loop {World : Type} (graph : @WorkflowGraph World)
    (context : @WorkflowContext World) (gas : nat) (l : Locals)
    (m : @Machine World) : option (@Machine World * Flow) :=
  match currentNodeId l with
  | Some i =>
      if (iterations l <? maxIter graph)%Z then
        match gas with
        | O => None
        | S gas' =>
            match iteration graph context i l m with
            | (m', Next l') => loop graph context gas' l' m'
            | (m', Return r) => Some (m', Return r)
            | (m', Raise err l') => Some (m', Raise err l')
            end
        end
      else Some (m, Next l)
  | None => Some (m, Next l)
  end.

(** [run] with the loop evaluated that way: its result, if the loop ends
    within [gas] passes. *)
Definition runWithin {World : Type} (graph : @WorkflowGraph World)
    (context : @WorkflowContext World) (gas : nat)
    (initialState : WorkflowState) (m : @Machine World)
  : option (@Machine World * WorkflowRunResult) :=
  finish graph <$>
    loop graph context gas (initialLocals graph initialState)
      (setStatus Running m).

(** The call [run initialState] on machine [m0] arrives at the head of the
    loop with budget [b], locals [l] and machine [m]. *)
Inductive reached {World : Type} (graph : @WorkflowGraph World)
    (context : @WorkflowContext World) (initialState : WorkflowState)
    (m0 : @Machine World) : nat -> Locals -> @Machine World -> Prop :=
  | reached_start :
      reached graph context initialState m0
        (Z.to_nat (maxIter graph - 0)) (initialLocals graph initialState)
        (setStatus Running m0)
  | reached_next (b : nat) (i : WorkflowNodeId) (l l' : Locals)
        (m m' : @Machine World) :
      reached graph context initialState m0 (S b) l m ->
      currentNodeId l = Some i ->
      iteration graph context i l m = (m', Next l') ->
      reached graph context initialState m0 b l' m'.

(** Traces built by successive appends, compared after reassociation. *)
Ltac flatten_trace :=
  repeat first [rewrite <- app_assoc | progress simpl]; reflexivity.

Ltac break_match :=
  match goal with
  | |- context [match ?x with _ => _ end] => destruct x eqn:?
  | H : context [match ?x with _ => _ end] |- _ => destruct x eqn:?
  end.

Ltac unfold_phases :=
  unfold iteration, checkBreakpoint, reportProgress, executeNode,
    checkCancelled, andThen in *.

Ltac phases := unfold_phases; repeat break_match; simpl in *;
  try discriminate; simplify_eq; simpl in *.

(** ** Vocabulary of the further properties of the runner *)

(** What an event shows of the pause protocol: a write to the status
    field, or a call of the breakpoint handler, with whether it returned. *)
Inductive Control : Type :=
  | Wrote (s : WorkflowStatus)
  | Asked (returned : bool).

Definition control (ev : Event) : option Control :=
  match ev with
  | EvStatus s => Some (Wrote s)
  | EvBreakpoint _ _ (Normal _) => Some (Asked true)
  | EvBreakpoint _ _ (Throws _) => Some (Asked false)
  | _ => None
  end.

(** The event is a call of the breakpoint handler that returned. *)
Definition handlerReturned (ev : Event) : bool :=
  match ev with
  | EvBreakpoint _ _ (Normal _) => true
  | _ => false
  end.

(** Every call of the breakpoint handler is made for a node whose step
    returned a state with a truthy marker, and is given that state less the
    marker. *)
Definition atBreakpoints (t : list Event) : Prop :=
  forall i s out, In (EvBreakpoint i s out) t ->
    exists s0 s1, In (EvExecute i s0 (Normal s1)) t /\
      truthy (getProp s1 BREAKPOINT) = true /\ s = delete BREAKPOINT s1.

(** A pause that is resumed: ['paused'], the handler is called and returns,
    ['running']. *)
Definition pause : list Control := [Wrote Paused; Asked true; Wrote Running].

(** [n] pauses, each one resumed. *)
Definition pauses (n : nat) : list Control := concat (replicate n pause).

(** A pause that is not resumed: the handler throws, and the [catch] writes
    ['error']. *)
Definition brokenPause : list Control :=
  [Wrote Paused; Asked false; Wrote Error].

(** The ways a run can end. *)
Definition endings : list (list Control) :=
  [ [Wrote Completed]; [Wrote Error]; [Wrote Cancelled]; brokenPause ].

(** The node and state of a call of [onProgress]. *)
Definition progressed (ev : Event) : option (WorkflowNodeId * WorkflowState) :=
  match ev with
  | EvProgress i s _ => Some (i, s)
  | _ => None
  end.

(** The node of a step that returned, with the state it returned. *)
Definition stepped (ev : Event) : option (WorkflowNodeId * WorkflowState) :=
  match ev with
  | EvExecute i _ (Normal s) => Some (i, s)
  | _ => None
  end.

(** The graph declares an edge from [a] to [b]. *)
Definition declaredEdge {World : Type} (graph : @WorkflowGraph World)
    (a b : WorkflowNodeId) : Prop :=
  exists e, In e (edges graph) /\ from e = a /\ to e = b.

(** Each node of the list is followed by the target of one of its edges. *)
Fixpoint linked {World : Type} (graph : @WorkflowGraph World)
    (path : list WorkflowNodeId) : Prop :=
  match path with
  | a :: rest =>
      match rest with
      | b :: _ => declaredEdge graph a b /\ linked graph rest
      | [] => True
      end
  | [] => True
  end.

(** A walk that, if it starts at all, starts at [a]. *)
Definition walkFrom {World : Type} (graph : @WorkflowGraph World)
    (a : WorkflowNodeId) (path : list WorkflowNodeId) : Prop :=
  match path with
  | [] => True
  | b :: _ => b = a /\ linked graph path
  end.

(** The entry node and the target of every edge are ids of declared
    nodes. *)
Definition closed {World : Type} (graph : @WorkflowGraph World) : Prop :=
  is_Some (findNode graph (entryNode graph)) /\
  forall e, In e (edges graph) -> is_Some (findNode graph (to e)).

(** The condition of the edge is absent, or true on the state. *)
Definition enabled (s : WorkflowState) (e : WorkflowEdge) : bool :=
  match condition e with
  | Some cond => cond s
  | None => true
  end.

(** Lists built by successive appends, compared after reassociation. *)
Ltac same_list :=
  simpl; rewrite ?app_nil_r, <- ?app_assoc; simpl; reflexivity.

(** A count over a trace built by successive appends. *)
Ltac counted :=
  rewrite ?List.filter_app, ?length_app; simpl; lia.

(** The calls of a trace pass the state along: starting from [s], every
    step and progress call of the trace is given the current state, which a
    step that returns replaces by its result; a breakpoint handler is given
    the current state less the marker, and its result, or else that
    marker-less state, is the state from then on.  [s'] is the state at the
    end. *)
Inductive threads : WorkflowState -> list Event -> WorkflowState -> Prop :=
  | threads_nil (s : WorkflowState) : threads s [] s
  | threads_status (s s' : WorkflowState) (st : WorkflowStatus) (t : list Event) :
      threads s t s' -> threads s (EvStatus st :: t) s'
  | threads_step (s s' : WorkflowState) (i : WorkflowNodeId)
        (out : Completion WorkflowState) (t : list Event) :
      threads (match out with Normal s1 => s1 | Throws _ => s end) t s' ->
      threads s (EvExecute i s out :: t) s'
  | threads_progress (s s' : WorkflowState) (i : WorkflowNodeId)
        (out : Completion unit) (t : list Event) :
      threads s t s' -> threads s (EvProgress i s out :: t) s'
  | threads_breakpoint (s s' : WorkflowState) (i : WorkflowNodeId)
        (out : Completion WorkflowState) (t : list Event) :
      threads (match out with
               | Normal s1 => s1
               | Throws _ => delete BREAKPOINT s
               end) t s' ->
      threads s (EvBreakpoint i (delete BREAKPOINT s) out :: t) s'.

(** ** The shipped pipelines

    The graphs built in [src/workflows].  The node functions call the
    language model, the knowledge store and the retrieval index; they are
    parameters here, as is a condition that reads the length of an array
    (which the state keeps as an opaque reference). *)

(** [WorkflowNodeFn] of [types.ts] *)
Definition WorkflowNodeFn {World : Type} : Type :=
  WorkflowState -> @WorkflowContext World -> @Async World WorkflowState.

(** [{ from, to }], an edge without a condition *)
Definition plainEdge (a b : WorkflowNodeId) : WorkflowEdge :=
  {| from := a; to := b; condition := None |}.

Module DialogueRefine.
Section Graph.

Context {World : Type}.
Variables gatherProfilesNode ragSamplesNode analyzeVoiceNode refineNode
          evaluateNode : @WorkflowNodeFn World.

(** [dialogue-refine.ts], lines 206-225 *)
Definition buildDialogueRefineGraph : @WorkflowGraph World :=
  {| graphId := "dialogue-refine";
     graphName := "Dialogue Refinement";
     entryNode := "gatherProfiles";
     nodes :=
       [ {| id := "gatherProfiles"; name := "Gather Character Profiles";
            execute := gatherProfilesNode |};
         {| id := "ragSamples"; name := "Fetch Reference Samples";
            execute := ragSamplesNode |};
         {| id := "analyzeVoice"; name := "Analyze Voice Patterns";
            execute := analyzeVoiceNode |};
         {| id := "refine"; name := "Refine Dialogue"; execute := refineNode |};
         {| id := "evaluate"; name := "Evaluate Refinement";
            execute := evaluateNode |} ];
     edges :=
       [ plainEdge "gatherProfiles" "ragSamples";
         plainEdge "ragSamples" "analyzeVoice";
         plainEdge "analyzeVoice" "refine";
         plainEdge "refine" "evaluate" ];
     maxIterations := None |}.

Definition stages : list WorkflowNodeId :=
  ["gatherProfiles"; "ragSamples"; "analyzeVoice"; "refine"; "evaluate"].

End Graph.
End DialogueRefine.

Module BrainstormBeats.
Section Graph.

Context {World : Type}.
Variables gatherContextNode ragContextNode analyzeStateNode generateBeatsNode
          expandBeatNode : @WorkflowNodeFn World.

(** [(state) => state.selectedBeatIndex !== null] *)
Definition beatSelected (state : WorkflowState) : bool :=
  match getProp state "selectedBeatIndex" with
  | JsNull => false
  | _ => true
  end.

(** [brainstorm-beats.ts], [buildBrainstormGraph] (lines 435-458 of the
    file that holds it) *)
Definition buildBrainstormGraph : @WorkflowGraph World :=
  {| graphId := "brainstorm-beats";
     graphName := "Brainstorm Beats";
     entryNode := "gatherContext";
     nodes :=
       [ {| id := "gatherContext"; name := "Gather Context";
            execute := gatherContextNode |};
         {| id := "ragContext"; name := "RAG Context";
            execute := ragContextNode |};
         {| id := "analyzeState"; name := "Analyze Story State";
            execute := analyzeStateNode |};
         {| id := "generateBeats"; name := "Generate Beats";
            execute := generateBeatsNode |};
         {| id := "expandBeat"; name := "Expand Beat";
            execute := expandBeatNode |} ];
     edges :=
       [ plainEdge "gatherContext" "ragContext";
         plainEdge "ragContext" "analyzeState";
         plainEdge "analyzeState" "generateBeats";
         {| from := "generateBeats"; to := "expandBeat";
            condition := Some beatSelected |} ];
     maxIterations := None |}.

Definition generation : list WorkflowNodeId :=
  ["gatherContext"; "ragContext"; "analyzeState"; "generateBeats"].

End Graph.
End BrainstormBeats.

Module ContinuityRepair.
Section Graph.

Context {World : Type}.
Variables gatherCanonNode auditNode repairNode reportNode : @WorkflowNodeFn World.

(** [st.autoRepair && st.issues.length > 0], lines 224-227 *)
Variable repairWanted : WorkflowState -> bool.

(** [continuity-repair.ts], lines 208-233 *)
Definition buildContinuityRepairGraph : @WorkflowGraph World :=
  {| graphId := "continuity-repair";
     graphName := "Continuity Repair";
     entryNode := "gatherCanon";
     nodes :=
       [ {| id := "gatherCanon"; name := "Gather Canon Facts";
            execute := gatherCanonNode |};
         {| id := "audit"; name := "Continuity Audit"; execute := auditNode |};
         {| id := "repair"; name := "Repair Issues"; execute := repairNode |};
         {| id := "report"; name := "Generate Report"; execute := reportNode |} ];
     edges :=
       [ plainEdge "gatherCanon" "audit";
         {| from := "audit"; to := "repair"; condition := Some repairWanted |};
         plainEdge "audit" "report";
         plainEdge "repair" "report" ];
     maxIterations := None |}.

End Graph.
End ContinuityRepair.

Module SceneDraft.
Section Graph.

Context {World : Type}.
Variables identifyNode constraintsNode ragNode generateNode continuityNode
          deltasNode reviseNode evaluateNode finalizeNode : @WorkflowNodeFn World.

(** [st.contradictions.length > 0 && st.revisionCount < 2], lines 406-409 *)
Variable revisionWanted : WorkflowState -> bool.

(** [scene-draft.ts], lines 377-424 *)
Definition buildSceneDraftGraph : @WorkflowGraph World :=
  {| graphId := "outline-to-scene-draft";
     graphName := "Outline → Scene Draft";
     entryNode := "identify";
     nodes :=
       [ {| id := "identify"; name := "Identify Scope & Entities";
            execute := identifyNode |};
         {| id := "constraints"; name := "Query KG Constraints";
            execute := constraintsNode |};
         {| id := "rag"; name := "Retrieve RAG Snippets"; execute := ragNode |};
         {| id := "generate"; name := "Generate Draft"; execute := generateNode |};
         {| id := "continuity"; name := "Continuity Check";
            execute := continuityNode |};
         {| id := "deltas"; name := "Propose KG Deltas"; execute := deltasNode |};
         {| id := "revise"; name := "Revise Draft"; execute := reviseNode |};
         {| id := "evaluate"; name := "Evaluate Output"; execute := evaluateNode |};
         {| id := "finalize"; name := "Finalize Output";
            execute := finalizeNode |} ];
     edges :=
       [ plainEdge "identify" "constraints";
         plainEdge "constraints" "rag";
         plainEdge "rag" "generate";
         plainEdge "generate" "continuity";
         {| from := "continuity"; to := "revise";
            condition := Some revisionWanted |};
         plainEdge "continuity" "deltas";
         plainEdge "revise" "continuity";
         plainEdge "deltas" "evaluate";
         plainEdge "evaluate" "finalize" ];
     maxIterations := Some 20 |}.

Definition opening : list WorkflowNodeId :=
  ["identify"; "constraints"; "rag"; "generate"; "continuity"].

Definition closing : list WorkflowNodeId := ["deltas"; "evaluate"; "finalize"].

(** [k] rounds of revision, each followed by a new continuity check. *)
Definition revisions (k : nat) : list WorkflowNodeId :=
  concat (replicate k ["revise"; "continuity"]).

End Graph.
End SceneDraft.

(** One step along a walk in a graph whose edges are written out: the edge
    taken is one of those declared, and all but the ones leaving the
    current node are ruled out. *)
Ltac next_stage H :=
  let e := fresh "e" in
  let Hin := fresh "Hin" in
  let Hfrom := fresh "Hfrom" in
  let Hto := fresh "Hto" in
  destruct H as [(e & Hin & Hfrom & Hto) H];
  simpl in Hin;
  repeat (destruct Hin as [<-|Hin]; simpl in Hfrom, Hto; try discriminate);
  try contradiction; subst.

Ltac walk :=
  repeat match goal with
  | H : linked _ (_ :: ?rest) |- _ =>
      is_var rest; destruct rest as [|? rest]; [clear H|next_stage H]
  end.

(** A graph whose nodes and edges are written out is closed. *)
Ltac closed_by_lookup :=
  split;
  [ eexists; reflexivity
  | let e := fresh "e" in
    let Hin := fresh "Hin" in
    intros e Hin; simpl in Hin;
    repeat (destruct Hin as [<-|Hin]; [eexists; reflexivity|]);
    contradiction ].

(** ** The project registry ([src/core/project-registry.ts])

    The registry is kept as JSON text under one settings key.  The stored
    value is modelled by what [JSON.parse] makes of it: a registry, or
    nothing usable (the key is empty or its text does not parse), and
    [JSON.stringify] followed by [JSON.parse] is taken to give the registry
    back.  Identifiers and timestamps come from the clock and the random
    generator; they are arguments here. *)

Module ProjectRegistry.

Record ProjectConfig : Type := mkProject {
  id : string;
  name : string;
  notebookIds : list string;
  tagIds : list string;
  kgResourceId : option string;
  kgNoteId : option string;
  createdAt : string;
  updatedAt : string
}.

Record Registry : Type := mkRegistry {
  activeProjectId : option string;
  projects : list ProjectConfig
}.

(** What the settings key holds. *)
Definition Stored : Type := option Registry.

(** [{ activeProjectId: null, projects: [] }] *)
Definition emptyRegistry : Registry :=
  {| activeProjectId := None; projects := [] |}.

Definition loadRegistry (stored : Stored) : Registry :=
  default emptyRegistry stored.

Definition saveRegistry (registry : Registry) : Stored := Some registry.

Definition hasId (projectId : string) (p : ProjectConfig) : bool :=
  String.eqb (id p) projectId.

(** A string, or [null], is truthy. *)
Definition truthyId (projectId : option string) : bool :=
  match projectId with
  | Some s => negb (String.eqb s "")
  | None => false
  end.

Definition getProjects (stored : Stored) : Registry := loadRegistry stored.

Definition getActiveProject (stored : Stored) : option ProjectConfig :=
  let registry := loadRegistry stored in
  match activeProjectId registry with
  | Some active =>
      if truthyId (Some active)
      then List.find (hasId active) (projects registry)
      else None
  | None => None
  end.

Definition setActiveProject (projectId : option string) (stored : Stored)
  : Stored * Completion unit :=
  let registry := loadRegistry stored in
  match projectId with
  | Some wanted =>
      if truthyId projectId && negb (existsb (hasId wanted) (projects registry))
      then (stored, Throws (newError ("Project not found: " ++ wanted)))
      else (saveRegistry {| activeProjectId := projectId;
                            projects := projects registry |}, Normal tt)
  | None =>
      (saveRegistry {| activeProjectId := None;
                       projects := projects registry |}, Normal tt)
  end.

(** [newId] is what [generateId()] returns, [created] and [updated] what the
    two calls of [new Date().toISOString()] return. *)
Definition createProject (newId created updated : string)
    (name : string) (notebookIds tagIds : list string) (stored : Stored)
  : Stored * ProjectConfig :=
  let registry := loadRegistry stored in
  let project :=
    {| id := newId; name := name; notebookIds := notebookIds;
       tagIds := tagIds; kgResourceId := None; kgNoteId := None;
       createdAt := created; updatedAt := updated |} in
  let all := (projects registry ++ [project])%list in
  let active :=
    if Nat.eqb (length all) 1 then Some (id project)
    else activeProjectId registry in
  (saveRegistry {| activeProjectId := active; projects := all |}, project).

(** [Partial<Pick<ProjectConfig, ...>>]: a field is given or [undefined];
    [kgResourceId] and [kgNoteId], when given, may be [null]. *)
Record Updates : Type := mkUpdates {
  newName : option string;
  newNotebookIds : option (list string);
  newTagIds : option (list string);
  newKgResourceId : option (option string);
  newKgNoteId : option (option string)
}.

(** [projects.findIndex((p) => p.id === projectId)], [None] for -1 *)
Fixpoint findIndex (projectId : string) (ps : list ProjectConfig) : option nat :=
  match ps with
  | [] => None
  | p :: rest =>
      if hasId projectId p then Some O
      else option_map S (findIndex projectId rest)
  end.

(** Lines 81-86: the assignments to the project's fields. *)
Definition applyUpdates (updates : Updates) (updated : string)
    (p : ProjectConfig) : ProjectConfig :=
  {| id := id p;
     name := default (name p) (newName updates);
     notebookIds := default (notebookIds p) (newNotebookIds updates);
     tagIds := default (tagIds p) (newTagIds updates);
     kgResourceId := default (kgResourceId p) (newKgResourceId updates);
     kgNoteId := default (kgNoteId p) (newKgNoteId updates);
     createdAt := createdAt p;
     updatedAt := updated |}.

Definition updateProject (updated : string) (projectId : string)
    (updates : Updates) (stored : Stored) : Stored * Completion ProjectConfig :=
  let registry := loadRegistry stored in
  match findIndex projectId (projects registry) with
  | None => (stored, Throws (newError ("Project not found: " ++ projectId)))
  | Some idx =>
      match projects registry !! idx with
      | Some old =>
          let project := applyUpdates updates updated old in
          (saveRegistry {| activeProjectId := activeProjectId registry;
                           projects := <[idx := project]> (projects registry) |},
           Normal project)
      | None =>
          (* an index that [findIndex] returns is in range *)
          (stored, Throws (newError ("Project not found: " ++ projectId)))
      end
  end.

Definition deleteProject (projectId : string) (stored : Stored) : Stored :=
  let registry := loadRegistry stored in
  let remaining :=
    List.filter (fun p => negb (hasId projectId p)) (projects registry) in
  let active :=
    match activeProjectId registry with
    | Some current =>
        if String.eqb current projectId
        then match remaining with
             | first :: _ => Some (id first)
             | [] => None
             end
        else Some current
    | None => None
    end in
  saveRegistry {| activeProjectId := active; projects := remaining |}.

(** The active id, when there is one, is the id of a project of the
    registry. *)
Definition activeKnown (registry : Registry) : Prop :=
  match activeProjectId registry with
  | Some active => exists p, In p (projects registry) /\ id p = active
  | None => True
  end.

End ProjectRegistry.

(** ** More concrete inputs *)

Module Samples.
Import Examples.

(** draft -> an id that no node has *)
Definition danglingGraph : @WorkflowGraph Clock :=
  {| graphId := "dangling"; graphName := "Draft, then nowhere";
     entryNode := "draft"; nodes := [draftNode];
     edges := [ plainEdge "draft" "publish" ];
     maxIterations := None |}.

(** A stage that takes one tick and records that it ran. *)
Definition stage (label : string) : @WorkflowNodeFn Clock :=
  stepReturning (insert label (JsBool true)).

Definition dialogueGraph : @WorkflowGraph Clock :=
  DialogueRefine.buildDialogueRefineGraph (stage "profiles") (stage "samples")
    (stage "voice") (stage "refined") (stage "evaluated").

Definition brainstormGraph : @WorkflowGraph Clock :=
  BrainstormBeats.buildBrainstormGraph (stage "context") (stage "rag")
    (stage "analysis") (stage "beats") (stage "expanded").

(** The user has picked no beat. *)
Definition noBeatPicked : WorkflowState := {[ "selectedBeatIndex" := JsNull ]}.

Definition hasIssues (s : WorkflowState) : bool := truthy (getProp s "issues").

Definition continuityGraph : @WorkflowGraph Clock :=
  ContinuityRepair.buildContinuityRepairGraph (stage "canon") (stage "issues")
    (stage "repaired") (stage "report") hasIssues.

(** One round of revision is asked for: the continuity check finds nothing
    once the draft is revised. *)
Definition unrevised (s : WorkflowState) : bool :=
  negb (truthy (getProp s "revised")).

Definition sceneGraph : @WorkflowGraph Clock :=
  SceneDraft.buildSceneDraftGraph (stage "identified") (stage "constraints")
    (stage "snippets") (stage "draft") (stage "checked") (stage "deltas")
    (stage "revised") (stage "evaluated") (stage "final") unrevised.

Definition pilot : ProjectRegistry.ProjectConfig :=
  {| ProjectRegistry.id := "p1"; ProjectRegistry.name := "Pilot";
     ProjectRegistry.notebookIds := ["nb1"]; ProjectRegistry.tagIds := [];
     ProjectRegistry.kgResourceId := None; ProjectRegistry.kgNoteId := None;
     ProjectRegistry.createdAt := "2024-01-01T00:00:00.000Z";
     ProjectRegistry.updatedAt := "2024-01-01T00:00:00.000Z" |}.

Definition sequel : ProjectRegistry.ProjectConfig :=
  {| ProjectRegistry.id := "p2"; ProjectRegistry.name := "Sequel";
     ProjectRegistry.notebookIds := []; ProjectRegistry.tagIds := ["t1"];
     ProjectRegistry.kgResourceId := Some "res"; ProjectRegistry.kgNoteId := None;
     ProjectRegistry.createdAt := "2024-02-01T00:00:00.000Z";
     ProjectRegistry.updatedAt := "2024-02-01T00:00:00.000Z" |}.

Definition twoProjects : ProjectRegistry.Stored :=
  Some {| ProjectRegistry.activeProjectId := Some "p1";
          ProjectRegistry.projects := [pilot; sequel] |}.

Definition rename : ProjectRegistry.Updates :=
  {| ProjectRegistry.newName := Some "Sequel, second draft";
     ProjectRegistry.newNotebookIds := None;
     ProjectRegistry.newTagIds := None;
     ProjectRegistry.newKgResourceId := Some None;
     ProjectRegistry.newKgNoteId := None |}.

End Samples.

(** * Edge resolution *)

Section EdgeResolution.

Context {World : Type}.
Variable graph : @WorkflowGraph World.

Lemma find_firstSuch {A : Type} (p : A -> bool) (l : list A) (e : A) :
  firstSuch p l e -> List.find p l = Some e.
Proof.
  intros (before & after & -> & He & Hbefore).
  induction before as [|x before IH]; simpl.
  - now rewrite He.
  - rewrite (Hbefore x) by now left.
    apply IH. intros e' He'. apply Hbefore. now right.
Qed.

Lemma find_all_false {A : Type} (p : A -> bool) (l : list A) :
  (forall e, In e l -> p e = false) -> List.find p l = None.
Proof.
  induction l as [|x l IH]; simpl; intros H; [reflexivity|].
  rewrite (H x) by now left.
  apply IH. intros e He. apply H. now right.
Qed.

Lemma find_filter {A : Type} (p q : A -> bool) (l : list A) :
  List.find p (List.filter q l) = List.find (fun e => q e && p e) l.
Proof.
  induction l as [|x l IH]; simpl; [reflexivity|].
  destruct (q x); simpl; [|exact IH].
  destruct (p x); [reflexivity|exact IH].
Qed.

(** The scan returns the target of the first edge whose condition holds. *)
Lemma firstMatching_find (es : list WorkflowEdge) (s : WorkflowState) :
  firstMatching es s =
  to <$> List.find
           (fun e => match condition e with Some cond => cond s | None => false end)
           es.
Proof.
  induction es as [|e es IH]; simpl; [reflexivity|].
  destruct (condition e) as [cond|]; [|exact IH].
  destruct (cond s); [reflexivity|exact IH].
Qed.

(** [resolveNextNode] as two searches over the declared edges. *)
Lemma resolveNextNode_find (fromId : WorkflowNodeId) (s : WorkflowState) :
  resolveNextNode graph fromId s =
  match List.find (satisfiedb fromId s) (edges graph) with
  | Some e => Some (to e)
  | None => to <$> List.find (defaultb fromId) (edges graph)
  end.
Proof.
  unfold resolveNextNode.
  rewrite firstMatching_find, !find_filter.
  fold (satisfiedb fromId s). fold (defaultb fromId).
  destruct (List.filter _ (edges graph)) as [|e0 es] eqn:Hfilter.
  - assert (Hnone : forall e, In e (edges graph) -> String.eqb (from e) fromId = false).
    { intros e He. destruct (String.eqb (from e) fromId) eqn:Hfrom; [|reflexivity].
      assert (Hin : In e (List.filter (fun e => String.eqb (from e) fromId) (edges graph)))
        by (apply filter_In; auto).
      rewrite Hfilter in Hin. destruct Hin. }
    rewrite !find_all_false; [reflexivity| |].
    + intros e He. unfold defaultb. now rewrite Hnone.
    + intros e He. unfold satisfiedb. now rewrite Hnone.
  - destruct (List.find (satisfiedb fromId s) (edges graph)); simpl; [reflexivity|].
    destruct (List.find (defaultb fromId) (edges graph)); reflexivity.
Qed.


End EdgeResolution.

(** * The run loop *)

Section RunLoop.

Context {World : Type}.
Variable graph : @WorkflowGraph World.
Variable context : @WorkflowContext World.

(** A loop invariant [I] (which may mention the remaining budget and the
    machine) that every pass preserves holds when the loop is left, and a
    property [F] of flows that holds of every exit holds of the loop. *)
Lemma while_ind (I : nat -> Locals -> @Machine World -> Prop)
    (F : @Machine World -> Flow -> Prop) :
  (forall b l m, I b l m -> currentNodeId l = None \/ b = O -> F m (Next l)) ->
  (forall b i l m, I (S b) l m -> currentNodeId l = Some i ->
     match iteration graph context i l m with
     | (m', Next l') => I b l' m'
     | (m', f) => F m' f
     end) ->
  forall b l m, I b l m -> F (while graph context b l m).1 (while graph context b l m).2.
Proof.
  intros Hexit Hpass b.
  induction b as [|b IH]; intros l m HI; simpl.
  - destruct (currentNodeId l); apply (Hexit 0%nat); auto.
  - destruct (currentNodeId l) as [i|] eqn:Hcur.
    + specialize (Hpass b i l m HI Hcur).
      unfold andThen.
      destruct (iteration graph context i l m) as [m' [l'|r|err l']]; simpl; auto.
    + apply (Hexit (S b)); auto.
Qed.

(** What a pass that falls through has done to the locals. *)
Lemma iteration_next (i : WorkflowNodeId) (l l' : Locals) (m m' : @Machine World) :
  iteration graph context i l m = (m', Next l') ->
  iterations l' = iterations l + 1 /\
  visited l' = (visited l ++ [i])%list /\
  currentNodeId l' = resolveNextNode graph i (state l') /\
  is_Some (findNode graph i).
Proof. intros H. phases; eauto. Qed.

(** A pass that does not fall through has visited at most the current
    node. *)
Lemma iteration_visited (i : WorkflowNodeId) (l : Locals) (m : @Machine World) :
  flowVisited (iteration graph context i l m).2 = visited l \/
  flowVisited (iteration graph context i l m).2 = (visited l ++ [i])%list /\
  is_Some (findNode graph i).
Proof. phases; eauto. Qed.

(** The recursion on the budget is the [while] of the source: with the
    budget [maxIter - iterations], a pass is made exactly when
    [currentNodeId !== null && iterations < maxIter]. *)
Lemma while_unfold (l : Locals) (m : @Machine World) :
  while graph context (Z.to_nat (maxIter graph - iterations l)) l m =
  match currentNodeId l with
  | Some i =>
      if (iterations l <? maxIter graph)%Z then
        andThen (iteration graph context i l m)
          (fun l' m' => while graph context (Z.to_nat (maxIter graph - iterations l')) l' m')
      else (m, Next l)
  | None => (m, Next l)
  end.
Proof.
  destruct (Z.ltb_spec (iterations l) (maxIter graph)) as [Hlt|Hge].
  - replace (Z.to_nat (maxIter graph - iterations l))
      with (S (Z.to_nat (maxIter graph - (iterations l + 1)))) by lia.
    simpl. destruct (currentNodeId l) as [i|]; [|reflexivity].
    unfold andThen.
    destruct (iteration graph context i l m) as [m' [l'|r|err l']] eqn:Hit; try reflexivity.
    apply iteration_next in Hit as (-> & _). reflexivity.
  - replace (Z.to_nat (maxIter graph - iterations l)) with O by lia.
    simpl. now destruct (currentNodeId l).
Qed.

Lemma findNode_known (i : WorkflowNodeId) :
  is_Some (findNode graph i) ->
  exists node, In node (nodes graph) /\ id node = i.
Proof.
  intros [node Hfind]. exists node.
  apply find_some in Hfind as [Hin Heq].
  now apply String.eqb_eq in Heq.
Qed.

(** The result of [run] takes its visited list and its final state from the
    flow that ends the loop. *)
Lemma run_result (initialState : WorkflowState) (m : @Machine World) :
  let loop := while graph context (Z.to_nat (maxIter graph - 0))
                (initialLocals graph initialState) (setStatus Running m) in
  nodesVisited (run graph context initialState m).2 = flowVisited loop.2 /\
  finalState (run graph context initialState m).2 = flowState loop.2.
Proof.
  unfold run. simpl.
  destruct (while _ _ _ _ _) as [m' [l'|r|err l']]; simpl; auto.
  unfold afterLoop. destruct (_ >=? _)%Z; auto.
Qed.

(** C9. Every id in [nodesVisited] names a node of [graph.nodes], and a
    non-empty [nodesVisited] starts with [graph.entryNode]. *)
Theorem nodesVisited_known (initialState : WorkflowState) (m : @Machine World) :
  let r := (run graph context initialState m).2 in
  (forall i, In i (nodesVisited r) ->
     exists node, In node (nodes graph) /\ id node = i) /\
  (nodesVisited r <> [] -> head (nodesVisited r) = Some (entryNode graph)).
Proof.
  simpl. destruct (run_result initialState m) as [-> _].
  set (inv := fun vis : list WorkflowNodeId =>
    (forall i, In i vis -> is_Some (findNode graph i)) /\
    (vis <> [] -> head vis = Some (entryNode graph))).
  cut (inv (flowVisited
         (while graph context (Z.to_nat (maxIter graph - 0))
            (initialLocals graph initialState) (setStatus Running m)).2)).
  { intros [Hknown Hhead]. split; [|exact Hhead].
    intros i Hi. apply findNode_known, Hknown, Hi. }
  apply (while_ind
    (fun _ l _ => inv (visited l) /\
       (visited l = [] -> currentNodeId l = Some (entryNode graph)))
    (fun _ f => inv (flowVisited f))).
  - intros _ l _ [Hinv _] _. exact Hinv.
  - intros _ i l m0 [[Hknown Hhead] Hentry] Hcur.
    assert (Hpush : is_Some (findNode graph i) -> inv (visited l ++ [i])%list).
    { intros Hi. split.
      - intros j Hj. apply in_app_iff in Hj as [Hj|[<-|[]]]; auto.
      - intros _. destruct (visited l) as [|x vis] eqn:Hvis; simpl.
        + rewrite Hentry in Hcur by reflexivity. congruence.
        + apply Hhead. discriminate. }
    destruct (iteration graph context i l m0) as [m' f] eqn:Hit.
    destruct f as [l'|r|err l'].
    + apply iteration_next in Hit as (_ & Hvis & _ & Hi).
      rewrite Hvis. split; [auto|].
      intros Hnil. now destruct (visited l).
    + pose proof (iteration_visited i l m0) as Hv. rewrite Hit in Hv. simpl in Hv |- *.
      destruct Hv as [->|[-> Hi]]; [split|]; auto.
    + pose proof (iteration_visited i l m0) as Hv. rewrite Hit in Hv. simpl in Hv |- *.
      destruct Hv as [->|[-> Hi]]; [split|]; auto.
  - split; [split|]; simpl; [intros i []|congruence|reflexivity].
Qed.

(** At the head of the loop the passes made so far are counted by
    [iterations], every one of them has visited a node, and the budget is
    what the guard still admits. *)
Lemma reached_iterations (initialState : WorkflowState) (m0 : @Machine World)
    (b : nat) (l : Locals) (m : @Machine World) :
  reached graph context initialState m0 b l m ->
  Z.of_nat (length (visited l)) = iterations l /\
  b = Z.to_nat (maxIter graph - iterations l) /\
  (0 <= maxIter graph -> 0 <= iterations l <= maxIter graph).
Proof.
  induction 1 as [|b i l l' m m' _ IH Hcur Hit].
  - simpl. repeat split; lia.
  - apply iteration_next in Hit as (-> & -> & _).
    rewrite length_app. simpl. destruct IH as (IH1 & IH2 & IH3).
    repeat split; try lia; intros Hbound; specialize (IH3 Hbound); lia.
Qed.

(** The loop as written ends within the passes its guard still admits,
    [iterations] growing by one with each pass, and ends the way [while]
    does. *)
Lemma loop_while (gas : nat) (l : Locals) (m : @Machine World) :
  (Z.to_nat (maxIter graph - iterations l) <= gas)%nat ->
  loop graph context gas l m =
  Some (while graph context (Z.to_nat (maxIter graph - iterations l)) l m).
Proof.
  revert l m. induction gas as [|gas IH]; intros l m Hgas;
    rewrite while_unfold; destruct (currentNodeId l) as [i|] eqn:Hcur;
    simpl; rewrite Hcur; try reflexivity;
    destruct (Z.ltb_spec (iterations l) (maxIter graph)) as [Hlt|Hge];
    try reflexivity; [lia|].
  unfold andThen.
  destruct (iteration graph context i l m) as [m' [l'|r|err l']] eqn:Hit;
    try reflexivity.
  apply iteration_next in Hit as (Hiter & _).
  apply IH. rewrite Hiter. lia.
Qed.


(** The status of a run whose loop is left through its guard. *)
Lemma run_exit_status (initialState : WorkflowState) (m m' : @Machine World)
    (l' : Locals) :
  while graph context (Z.to_nat (maxIter graph - 0))
    (initialLocals graph initialState) (setStatus Running m) = (m', Next l') ->
  status (run graph context initialState m).2 =
  if (iterations l' >=? maxIter graph)%Z then Error else Completed.
Proof.
  intros Hloop. unfold run. cbv zeta.
  change (iterations (initialLocals graph initialState)) with 0.
  rewrite Hloop. unfold afterLoop. now destruct (_ >=? _)%Z.
Qed.

(** ** Exceptions thrown by callbacks *)

Lemma executedIds_app (t1 t2 : list Event) :
  executedIds (t1 ++ t2) = (executedIds t1 ++ executedIds t2)%list.
Proof.
  induction t1 as [|ev t1 IH]; simpl; [reflexivity|].
  destruct ev; simpl; now rewrite IH.
Qed.

Lemma while_accounted (b : nat) (l : Locals) (m : @Machine World) :
  omap failure (trace m) = [] ->
  visited l = executedIds (trace m) ->
  accounted (while graph context b l m).1 (while graph context b l m).2.
Proof.
  intros Hclean Hvis.
  apply (while_ind
    (fun _ l m => omap failure (trace m) = [] /\ visited l = executedIds (trace m))
    accounted); [| |auto].
  - intros _ l0 m0 [Hc Hv] _. split; [exact Hv|]. now rewrite Hc.
  - clear. intros _ i l m [Hc Hv] Hcur.
    phases; unfold accounted; simpl;
      rewrite ?omap_app, ?executedIds_app, ?Hc, <- ?Hv; simpl;
      rewrite ?app_nil_r; repeat split; eauto using last_snoc;
      do 3 eexists; repeat split; simpl; apply last_snoc.
Qed.

(** In a run started with an empty trace, [nodesVisited] lists the steps
    that were called, and a callback that threw ended the run: the result is
    an error carrying that exception's text and the state that callback was
    given. *)
Lemma run_accounted (initialState : WorkflowState) (m : @Machine World) :
  trace m = [] ->
  let m' := (run graph context initialState m).1 in
  let r := (run graph context initialState m).2 in
  nodesVisited r = executedIds (trace m') /\
  forall ev i s err,
    In ev (trace m') -> failure ev = Some (i, s, err) ->
    status r = Error /\ error r = Some (errorText err) /\
    finalState r = s /\ last (nodesVisited r) = Some i /\
    runnerStatus m' = Error.
Proof.
  intros Hfresh. unfold run.
  assert (Hacc : accounted
            (while graph context (Z.to_nat (maxIter graph - 0))
               (initialLocals graph initialState) (setStatus Running m)).1
            (while graph context (Z.to_nat (maxIter graph - 0))
               (initialLocals graph initialState) (setStatus Running m)).2)
    by (apply while_accounted; simpl; now rewrite Hfresh).
  cbv zeta. change (iterations (initialLocals graph initialState)) with 0.
  destruct (while _ _ _ _ _) as [m' f]. destruct Hacc as [Hvis Hfail].
  simpl in Hvis, Hfail.
  assert (Hin : forall ev x, In ev (trace m') -> failure ev = Some x ->
                  In x (omap failure (trace m'))).
  { intros ev x Hev Hx. apply list_elem_of_In, list_elem_of_omap.
    exists ev. split; [now apply list_elem_of_In|exact Hx]. }
  assert (Hstatus : forall st ev x, In ev (trace m' ++ [EvStatus st]) ->
                      failure ev = Some x -> In x (omap failure (trace m'))).
  { intros st ev x Hev Hx. apply in_app_iff in Hev as [Hev|[<-|[]]]; eauto.
    discriminate. }
  destruct f as [l'|r|err' l']; simpl in *.
  - unfold afterLoop. destruct (_ >=? _)%Z; simpl;
      (rewrite executedIds_app, app_nil_r; split; [exact Hvis|]);
      intros ev i s err Hev Hx; specialize (Hstatus _ _ _ Hev Hx);
      destruct (omap failure (trace m')); [destruct Hstatus| |destruct Hstatus|];
      destruct Hfail as (? & ? & ? & ? & _); discriminate.
  - split; [exact Hvis|].
    intros ev i s err Hev Hx. specialize (Hin _ _ Hev Hx).
    destruct (omap failure (trace m')); [destruct Hin|].
    destruct Hfail as (? & ? & ? & ? & _); discriminate.
  - rewrite executedIds_app, app_nil_r. split; [exact Hvis|].
    intros ev i s err Hev Hx. specialize (Hstatus _ _ _ Hev Hx).
    destruct (omap failure (trace m')) as [|x fs]; [destruct Hstatus|].
    destruct Hfail as (i0 & err0 & l0 & Hraise & Hfs & Hlast).
    simplify_eq. destruct Hstatus as [Hx'|[]]. simplify_eq. auto.
Qed.

(** C6, as the code has it. When a node's step throws a value of [JsError]
    (one on which [err.message || String(err)] gives a string, so neither
    [null] nor [undefined]), [run] returns status ['error'], the error field
    holds [err.message || String(err)] (the exception's message when it is
    not empty, the string form of the exception otherwise), [finalState] is
    the state that was passed into the failing step, and [nodesVisited]
    lists every node executed, the failing one last. *)
Theorem step_throw_reported (initialState : WorkflowState) (m : @Machine World)
    (i : WorkflowNodeId) (s : WorkflowState) (err : JsError) :
  trace m = [] ->
  In (EvExecute i s (Throws err)) (trace (run graph context initialState m).1) ->
  let r := (run graph context initialState m).2 in
  status r = Error /\
  error r = Some (errorText err) /\
  (message err <> "" -> error r = Some (message err)) /\
  finalState r = s /\
  nodesVisited r = executedIds (trace (run graph context initialState m).1) /\
  last (nodesVisited r) = Some i.
Proof.
  intros Hfresh Hev.
  destruct (run_accounted initialState m Hfresh) as [Hvis Hfail].
  destruct (Hfail _ i s err Hev eq_refl) as (Hst & Herr & Hfin & Hlast & _).
  repeat split; auto.
  intros Hmsg. rewrite Herr. unfold errorText.
  destruct (String.eqb_spec (message err) ""); congruence.
Qed.

(** C3, as the code has it. When the call of [onProgress] throws (a
    synchronous throw, the callback not being awaited) a value of [JsError]
    (one on which [err.message || String(err)] gives a string, so neither
    [null] nor [undefined]), the [catch] of [run] takes it: the run stops
    there with status ['error'], [err.message || String(err)] in the error
    field, [finalState] the state that was passed to the callback, and the
    callback's node last in [nodesVisited]. *)
Theorem progress_throw_reported (initialState : WorkflowState) (m : @Machine World)
    (i : WorkflowNodeId) (s : WorkflowState) (err : JsError) :
  trace m = [] ->
  In (EvProgress i s (Throws err)) (trace (run graph context initialState m).1) ->
  let r := (run graph context initialState m).2 in
  status r = Error /\
  error r = Some (errorText err) /\
  finalState r = s /\
  last (nodesVisited r) = Some i /\
  getStatus (run graph context initialState m).1 = Error.
Proof.
  intros Hfresh Hev.
  destruct (run_accounted initialState m Hfresh) as [_ Hfail].
  exact (Hfail _ i s err Hev eq_refl).
Qed.

(** ** Cancellation before the first node *)

(** C7. With a bound of at least one, a signal that is already aborted
    when [run] is called gives status ['cancelled'], an empty
    [nodesVisited], no error, the initial state as [finalState], and no
    call of any step: the run only sets the status, twice. *)
Theorem cancelled_before_start (initialState : WorkflowState) (m : @Machine World) :
  1 <= maxIter graph ->
  signalAborted context (world m) = true ->
  run graph context initialState m =
  ({| world := world m; runnerStatus := Cancelled;
      trace := trace m ++ [EvStatus Running; EvStatus Cancelled] |},
   {| status := Cancelled; finalState := initialState; error := None;
      nodesVisited := [] |}).
Proof.
  intros Hbound Haborted. unfold run. simpl.
  replace (Z.to_nat (maxIter graph - 0))
    with (S (Z.to_nat (maxIter graph - 1))) by lia.
  simpl. unfold iteration, checkCancelled. simpl. rewrite Haborted. simpl.
  unfold setStatus. simpl. now rewrite <- app_assoc.
Qed.

(** ** Breakpoints *)

(** From any point the run arrives at, its result is what the rest of the
    loop gives. *)
Lemma run_from_reached (initialState : WorkflowState) (m0 : @Machine World)
    (b : nat) (l : Locals) (m : @Machine World) :
  reached graph context initialState m0 b l m ->
  run graph context initialState m0 = finish graph (while graph context b l m).
Proof.
  induction 1 as [|b i l l' m m' _ IH Hcur Hit].
  - reflexivity.
  - rewrite IH. simpl. rewrite Hcur. unfold andThen. now rewrite Hit.
Qed.

(** The result of a run whose pass at [l], [m] ends the loop. *)
Lemma run_ends_in_pass (initialState : WorkflowState) (m0 : @Machine World)
    (b : nat) (i : WorkflowNodeId) (l : Locals) (m m' : @Machine World)
    (f : Flow) :
  reached graph context initialState m0 (S b) l m ->
  currentNodeId l = Some i ->
  iteration graph context i l m = (m', f) ->
  match f with Next _ => False | _ => True end ->
  run graph context initialState m0 = finish graph (m', f).
Proof.
  intros Hreached Hcur Hit Hends.
  rewrite (run_from_reached _ _ _ _ _ Hreached). simpl.
  rewrite Hcur. unfold andThen. rewrite Hit.
  now destruct f.
Qed.

(** C2, as the code has it. Without an [onBreakpoint] handler the pause
    marker is not looked at: a pass of a run whose step and progress
    callback return normally leaves the step's state as it is, marker
    included, and does not change the status; that state is what edge
    resolution receives, what the next pass starts from and, when the loop
    stops there, the [finalState]. *)
Theorem marker_kept_without_handler (initialState : WorkflowState)
    (m0 : @Machine World) (b : nat) (i : WorkflowNodeId) (l : Locals)
    (m : @Machine World) (node : WorkflowNode) (s1 : WorkflowState)
    (w1 w2 : World) :
  onBreakpoint context = None ->
  reached graph context initialState m0 (S b) l m ->
  currentNodeId l = Some i ->
  signalAborted context (world m) = false ->
  findNode graph i = Some node ->
  execute node (state l) context (world m) = (w1, Normal s1) ->
  progressReturns context i s1 w1 w2 ->
  let m' := {| world := w2; runnerStatus := runnerStatus m;
               trace := trace m ++ EvExecute i (state l) (Normal s1)
                          :: progressEvents context i s1 |} in
  let l' := {| currentNodeId := resolveNextNode graph i s1; state := s1;
               iterations := iterations l + 1;
               visited := visited l ++ [i] |} in
  iteration graph context i l m = (m', Next l') /\
  reached graph context initialState m0 b l' m' /\
  (resolveNextNode graph i s1 = None \/ b = O ->
   finalState (run graph context initialState m0).2 = s1).
Proof.
  unfold progressReturns, progressEvents.
  intros Hnone Hreached Hcur Hsig Hfind Hexec Hprog. cbv zeta.
  match goal with |- ?it = ?rhs /\ _ => assert (Hit : it = rhs) end.
  { unfold_phases. rewrite Hsig, Hfind. simpl. rewrite Hexec. simpl.
    destruct (onProgress context) as [callback|]; simpl.
    - rewrite Hprog, Hnone. unfold emit. simpl. now rewrite <- app_assoc.
    - rewrite Hnone, Hprog. reflexivity. }
  split; [exact Hit|].
  pose proof (reached_next _ _ _ _ _ _ _ _ _ _ Hreached Hcur Hit) as Hnext.
  split; [exact Hnext|].
  intros Hstop. rewrite (run_from_reached _ _ _ _ _ Hnext).
  destruct Hstop as [Hsink| ->].
  - destruct b; simpl; rewrite Hsink; simpl;
      unfold afterLoop; now destruct (_ >=? _)%Z.
  - simpl. destruct (resolveNextNode graph i s1); simpl;
      unfold afterLoop; now destruct (_ >=? _)%Z.
Qed.

(** C5, as the code has it. With an [onBreakpoint] handler, when in a run a
    node's step returns a state whose marker is truthy and the progress
    callback (if any) returns normally: the status is set to ['paused'] and
    the handler is called once, with the node's id and the step's state
    less the marker.  If the handler returns [s2], the status goes back to
    ['running'] and the signal is read again: aborted, [run] returns
    ['cancelled'] with [s2] as [finalState]; otherwise [s2] is the state
    that edge resolution receives and the next pass starts from.  If the
    handler throws, [run] returns ['error'] with the step's state less the
    marker. *)
Theorem breakpoint_protocol (initialState : WorkflowState)
    (m0 : @Machine World) (b : nat) (i : WorkflowNodeId) (l : Locals)
    (m : @Machine World) (node : WorkflowNode) (s1 : WorkflowState)
    (handler : WorkflowNodeId -> WorkflowState -> Async WorkflowState)
    (w1 w2 w3 : World) (out : Completion WorkflowState) :
  onBreakpoint context = Some handler ->
  reached graph context initialState m0 (S b) l m ->
  currentNodeId l = Some i ->
  signalAborted context (world m) = false ->
  findNode graph i = Some node ->
  execute node (state l) context (world m) = (w1, Normal s1) ->
  truthy (getProp s1 BREAKPOINT) = true ->
  progressReturns context i s1 w1 w2 ->
  handler i (delete BREAKPOINT s1) w2 = (w3, out) ->
  let paused :=
    (trace m ++ EvExecute i (state l) (Normal s1) :: progressEvents context i s1
       ++ [EvStatus Paused; EvBreakpoint i (delete BREAKPOINT s1) out])%list in
  match out with
  | Throws err =>
      let m' := {| world := w3; runnerStatus := Paused; trace := paused |} in
      let l' := {| currentNodeId := currentNodeId l;
                   state := delete BREAKPOINT s1;
                   iterations := iterations l;
                   visited := visited l ++ [i] |} in
      iteration graph context i l m = (m', Raise err l') /\
      (run graph context initialState m0).2 =
        {| status := Error; finalState := delete BREAKPOINT s1;
           error := Some (errorText err); nodesVisited := visited l ++ [i] |}
  | Normal s2 =>
      if signalAborted context w3 then
        let m' := {| world := w3; runnerStatus := Cancelled;
                     trace := paused ++ [EvStatus Running; EvStatus Cancelled] |} in
        let r := {| status := Cancelled; finalState := s2; error := None;
                    nodesVisited := visited l ++ [i] |} in
        iteration graph context i l m = (m', Return r) /\
        run graph context initialState m0 = (m', r)
      else
        let m' := {| world := w3; runnerStatus := Running;
                     trace := paused ++ [EvStatus Running] |} in
        let l' := {| currentNodeId := resolveNextNode graph i s2; state := s2;
                     iterations := iterations l + 1;
                     visited := visited l ++ [i] |} in
        iteration graph context i l m = (m', Next l') /\
        reached graph context initialState m0 b l' m'
  end.
Proof.
  unfold progressReturns, progressEvents.
  intros Hhandler Hreached Hcur Hsig Hfind Hexec Hmark Hprog Hcall. cbv zeta.
  assert (Hit : forall rhs,
    andThen
      (checkBreakpoint context i (withState s1 (pushVisited i l))
         {| world := w2; runnerStatus := runnerStatus m;
            trace := trace m ++ EvExecute i (state l) (Normal s1)
                       :: progressEvents context i s1 |})
      (fun l m => (m, Next (advance (resolveNextNode graph i (state l)) l))) = rhs ->
    iteration graph context i l m = rhs).
  { intros rhs <-. unfold progressEvents.
    unfold iteration, checkCancelled, executeNode, reportProgress.
    rewrite Hsig, Hfind. simpl. rewrite Hexec. simpl.
    destruct (onProgress context) as [callback|]; simpl.
    - rewrite Hprog. simpl. unfold emit. simpl. now rewrite <- app_assoc.
    - now subst w2. }
  unfold checkBreakpoint in Hit. rewrite Hhandler in Hit. simpl in Hit.
  rewrite Hmark, Hcall in Hit.
  destruct out as [s2|err]; simpl in Hit.
  - unfold checkCancelled in Hit. simpl in Hit.
    destruct (signalAborted context w3); simpl in Hit.
    + match goal with |- ?it = ?rhs /\ _ => assert (Hpass : it = rhs) end.
      { apply Hit. unfold setStatus, emit, cancelledResult. flatten_trace. }
      split; [exact Hpass|].
      now rewrite (run_ends_in_pass _ _ _ _ _ _ _ _ Hreached Hcur Hpass I).
    + match goal with |- ?it = ?rhs /\ _ => assert (Hpass : it = rhs) end.
      { apply Hit. unfold setStatus, emit, advance. flatten_trace. }
      split; [exact Hpass|].
      exact (reached_next _ _ _ _ _ _ _ _ _ _ Hreached Hcur Hpass).
  - match goal with |- ?it = ?rhs /\ _ => assert (Hpass : it = rhs) end.
    { apply Hit. unfold setStatus, emit. flatten_trace. }
    split; [exact Hpass|].
    now rewrite (run_ends_in_pass _ _ _ _ _ _ _ _ Hreached Hcur Hpass I).
Qed.

(** ** Determinism *)

Section Determinism.

Variable R : World -> World -> Prop.
Hypothesis Hdet : deterministic graph context R.

Lemma andThen_agree (x1 x2 : @Machine World * Flow)
    (rest : Locals -> @Machine World -> @Machine World * Flow) :
  agree R x1 x2 ->
  (forall l m1 m2, R (world m1) (world m2) -> agree R (rest l m1) (rest l m2)) ->
  agree R (andThen x1 rest) (andThen x2 rest).
Proof.
  destruct x1 as [m1 f1], x2 as [m2 f2]. intros [Hflow Hworld] Hrest.
  simpl in Hflow, Hworld. subst f2.
  destruct f1; simpl; [now apply Hrest|split; auto..].
Qed.

Lemma checkCancelled_agree (l : Locals) (m1 m2 : @Machine World) :
  R (world m1) (world m2) ->
  agree R (checkCancelled context l m1) (checkCancelled context l m2).
Proof.
  intros Hworld. unfold checkCancelled.
  rewrite (same_signal _ _ _ Hdet _ _ Hworld).
  destruct (signalAborted context (world m2)); split; auto.
Qed.

Lemma executeNode_agree (i : WorkflowNodeId) (l : Locals) (m1 m2 : @Machine World) :
  R (world m1) (world m2) ->
  agree R (executeNode graph context i l m1) (executeNode graph context i l m2).
Proof.
  intros Hworld. unfold executeNode.
  destruct (findNode graph i) as [node|] eqn:Hfind; [|split; auto].
  apply find_some in Hfind as [Hin _].
  destruct (same_execute _ _ _ Hdet node (state (pushVisited i l)) _ _ Hin Hworld)
    as [Hout Hnext].
  destruct (execute node _ context (world m1)) as [w1 o1].
  destruct (execute node _ context (world m2)) as [w2 o2].
  simpl in Hout, Hnext. subst o2.
  destruct o1; split; auto.
Qed.

Lemma reportProgress_agree (i : WorkflowNodeId) (l : Locals) (m1 m2 : @Machine World) :
  R (world m1) (world m2) ->
  agree R (reportProgress context i l m1) (reportProgress context i l m2).
Proof.
  intros Hworld. unfold reportProgress.
  destruct (onProgress context) as [callback|] eqn:Hcb; [|split; auto].
  destruct (same_progress _ _ _ Hdet callback i (state l) _ _ Hcb Hworld)
    as [Hout Hnext].
  destruct (callback i (state l) (world m1)) as [w1 o1].
  destruct (callback i (state l) (world m2)) as [w2 o2].
  simpl in Hout, Hnext. subst o2.
  destruct o1; split; auto.
Qed.

Lemma checkBreakpoint_agree (i : WorkflowNodeId) (l : Locals) (m1 m2 : @Machine World) :
  R (world m1) (world m2) ->
  agree R (checkBreakpoint context i l m1) (checkBreakpoint context i l m2).
Proof.
  intros Hworld. unfold checkBreakpoint.
  destruct (onBreakpoint context) as [handler|] eqn:Hh; [|split; auto].
  destruct (truthy _); [|split; auto].
  set (l1 := withState _ l).
  assert (Hw : R (world (setStatus Paused m1)) (world (setStatus Paused m2)))
    by exact Hworld.
  destruct (same_breakpoint _ _ _ Hdet handler i (state l1) _ _ Hh Hw)
    as [Hout Hnext].
  destruct (handler i (state l1) (world (setStatus Paused m1))) as [w1 o1].
  destruct (handler i (state l1) (world (setStatus Paused m2))) as [w2 o2].
  simpl in Hout, Hnext. subst o2.
  destruct o1; [|split; auto].
  apply checkCancelled_agree. exact Hnext.
Qed.

Lemma iteration_agree (i : WorkflowNodeId) (l : Locals) (m1 m2 : @Machine World) :
  R (world m1) (world m2) ->
  agree R (iteration graph context i l m1) (iteration graph context i l m2).
Proof.
  intros Hworld. unfold iteration.
  apply andThen_agree; [now apply checkCancelled_agree|].
  clear l m1 m2 Hworld. intros l m1 m2 Hworld.
  apply andThen_agree; [now apply executeNode_agree|].
  clear l m1 m2 Hworld. intros l m1 m2 Hworld.
  apply andThen_agree; [now apply reportProgress_agree|].
  clear l m1 m2 Hworld. intros l m1 m2 Hworld.
  apply andThen_agree; [now apply checkBreakpoint_agree|].
  clear l m1 m2 Hworld. intros l m1 m2 Hworld.
  split; auto.
Qed.

Lemma while_agree (b : nat) (l : Locals) (m1 m2 : @Machine World) :
  R (world m1) (world m2) ->
  agree R (while graph context b l m1) (while graph context b l m2).
Proof.
  revert l m1 m2. induction b as [|b IH]; intros l m1 m2 Hworld; simpl.
  - destruct (currentNodeId l); split; auto.
  - destruct (currentNodeId l) as [i|]; [|split; auto].
    apply andThen_agree; [now apply iteration_agree|]. exact IH.
Qed.


End Determinism.

End RunLoop.

(** * The theorems at work on concrete pipelines *)

Import Examples.

(** C1. A single-node graph with [maxIterations = 1]: the loop is left with
    [currentNodeId = null] after its first and only pass, which is also its
    [maxIterations]-th, and [run] reports ['error'], not ['completed']. *)
Theorem sink_on_last_pass_is_error :
  let g := singleNode (Some 1) in
  (exists m' l',
     while g quiet (Z.to_nat (maxIter g - 0)) (initialLocals g ∅)
       (setStatus Running (boot 0)) = (m', Next l') /\
     currentNodeId l' = None /\ iterations l' = maxIter g) /\
  status (run g quiet ∅ (boot 0)).2 = Error /\
  error (run g quiet ∅ (boot 0)).2 = Some "Max iterations (1) exceeded" /\
  nodesVisited (run g quiet ∅ (boot 0)).2 = ["draft"].
Proof.
  split; [do 2 eexists; split; [reflexivity|split; reflexivity]|].
  repeat split; reflexivity.
Qed.

(** With the default bound the same pipeline completes. *)
Example single_node_completes :
  status (run (singleNode None) quiet ∅ (boot 0)).2 = Completed /\
  nodesVisited (run (singleNode None) quiet ∅ (boot 0)).2 = ["draft"].
Proof. split; reflexivity. Qed.

(** The two-node cycle with [maxIterations = 5]. *)
Example cycle_exceeds_bound :
  status (run (cycleGraph (Some 5)) quiet ∅ (boot 0)).2 = Error /\
  length (nodesVisited (run (cycleGraph (Some 5)) quiet ∅ (boot 0)).2) = 5%nat /\
  error (run (cycleGraph (Some 5)) quiet ∅ (boot 0)).2
    = Some "Max iterations (5) exceeded".
Proof. repeat split; reflexivity. Qed.

(** C2 fails as stated: without a handler the marker set by the review step
    reaches the next node and the final state. *)
Lemma marker_survives_without_handler :
  let out := run reviewGraph quiet ∅ (boot 0) in
  onBreakpoint quiet = None /\
  status out.2 = Completed /\
  finalState out.2 !! BREAKPOINT = Some (JsBool true) /\
  truthy (getProp (finalState out.2) BREAKPOINT) = true /\
  exists s', In (EvExecute "finalize" marked (Normal s')) (trace out.1).
Proof.
  repeat split; try reflexivity.
  eexists. vm_compute. right. right. left. reflexivity.
Qed.

Lemma marker_kept_without_handler_witness :
  let m' := {| world := 1%nat; runnerStatus := Running;
               trace := [EvStatus Running; EvExecute "review" ∅ (Normal marked)] |} in
  let l' := {| currentNodeId := None; state := marked; iterations := 1;
               visited := ["review"] |} in
  iteration reviewOnly quiet "review" (initialLocals reviewOnly ∅)
    (setStatus Running (boot 0)) = (m', Next l') /\
  reached reviewOnly quiet ∅ (boot 0) 49 l' m' /\
  finalState (run reviewOnly quiet ∅ (boot 0)).2 = marked.
Proof.
  destruct (marker_kept_without_handler reviewOnly quiet ∅ (boot 0) 49 "review"
              (initialLocals reviewOnly ∅) (setStatus Running (boot 0))
              reviewNode marked 1%nat 1%nat
              eq_refl (reached_start _ _ _ _) eq_refl eq_refl eq_refl eq_refl eq_refl)
    as (Hpass & Hnext & Hfinal).
  split; [exact Hpass|]. split; [exact Hnext|].
  apply Hfinal. left. reflexivity.
Defined.

(** C6 fails as stated: after a step that throws [new Error('')] the error
    field holds ['Error'], the string form of the exception, and not its
    message, which is empty. *)
Lemma empty_message_not_reported :
  let m' := (run silentGraph quiet ∅ (boot 0)).1 in
  let r := (run silentGraph quiet ∅ (boot 0)).2 in
  In (EvExecute "continuity" drafted (Throws (newError ""))) (trace m') /\
  message (newError "") = "" /\
  status r = Error /\
  error r = Some "Error" /\
  error r <> Some (message (newError "")).
Proof.
  split; [|split; [|split; [|split]]]; try reflexivity.
  - vm_compute. right. right. left. reflexivity.
  - discriminate.
Qed.

(** C3 fails as stated: the same pipeline completes with a progress
    callback that returns and ends in error with one that throws. *)
Lemma progress_throw_aborts_run :
  status (run (singleNode None) withProgress ∅ (boot 0)).2 = Completed /\
  status (run (singleNode None) brokenProgress ∅ (boot 0)).2 = Error /\
  error (run (singleNode None) brokenProgress ∅ (boot 0)).2 = Some "panel closed".
Proof. repeat split; reflexivity. Qed.

Lemma progress_throw_reported_witness :
  let r := (run (singleNode None) brokenProgress ∅ (boot 0)).2 in
  status r = Error /\
  error r = Some (errorText (newError "panel closed")) /\
  finalState r = drafted /\
  last (nodesVisited r) = Some "draft" /\
  getStatus (run (singleNode None) brokenProgress ∅ (boot 0)).1 = Error.
Proof.
  apply (progress_throw_reported (singleNode None) brokenProgress ∅ (boot 0)
           "draft" drafted (newError "panel closed")).
  - reflexivity.
  - vm_compute. right. right. left. reflexivity.
Defined.


(** C5 fails as stated: the review step sets the marker and a handler is
    configured, but the progress callback throws, so the handler is never
    called and the status never becomes ['paused']. *)
Lemma breakpoint_skipped_when_progress_throws :
  let out := run reviewGraph reviewedBrokenProgress ∅ (boot 0) in
  onBreakpoint reviewedBrokenProgress = Some approve /\
  In (EvExecute "review" ∅ (Normal marked)) (trace out.1) /\
  truthy (getProp marked BREAKPOINT) = true /\
  ~ In (EvStatus Paused) (trace out.1) /\
  (forall i s o, ~ In (EvBreakpoint i s o) (trace out.1)) /\
  status out.2 = Error.
Proof.
  assert (Htrace : trace (run reviewGraph reviewedBrokenProgress ∅ (boot 0)).1 =
            [EvStatus Running; EvExecute "review" ∅ (Normal marked);
             EvProgress "review" marked (Throws (newError "panel closed"));
             EvStatus Error]) by reflexivity.
  cbv zeta. rewrite Htrace.
  repeat split; try reflexivity.
  - right. left. reflexivity.
  - intros [H|[H|[H|[H|[]]]]]; discriminate.
  - intros i s o [H|[H|[H|[H|[]]]]]; discriminate.
Qed.

(** The author answers at time 2, when the cancel button has been
    pressed. *)
Lemma breakpoint_protocol_witness :
  let m' := {| world := 2%nat; runnerStatus := Cancelled;
               trace := [EvStatus Running; EvExecute "review" ∅ (Normal marked);
                         EvStatus Paused;
                         EvBreakpoint "review" ∅ (Normal {[ "approved" := JsBool true ]});
                         EvStatus Running; EvStatus Cancelled] |} in
  let r := {| status := Cancelled;
              finalState := {[ "approved" := JsBool true ]};
              error := None; nodesVisited := ["review"] |} in
  iteration reviewGraph (reviewed (Some 2%nat)) "review"
    (initialLocals reviewGraph ∅) (setStatus Running (boot 0)) = (m', Return r) /\
  run reviewGraph (reviewed (Some 2%nat)) ∅ (boot 0) = (m', r).
Proof.
  exact (breakpoint_protocol reviewGraph (reviewed (Some 2%nat)) ∅ (boot 0) 49
           "review" (initialLocals reviewGraph ∅) (setStatus Running (boot 0))
           reviewNode marked approve 1%nat 1%nat 2%nat
           (Normal {[ "approved" := JsBool true ]})
           eq_refl (reached_start _ _ _ _) eq_refl eq_refl eq_refl eq_refl
           eq_refl eq_refl eq_refl).
Defined.

Lemma step_throw_reported_witness :
  let r := (run failingGraph quiet ∅ (boot 0)).2 in
  status r = Error /\
  error r = Some (errorText (newError "LLM request failed")) /\
  (message (newError "LLM request failed") <> "" ->
   error r = Some (message (newError "LLM request failed"))) /\
  finalState r = drafted /\
  nodesVisited r = executedIds (trace (run failingGraph quiet ∅ (boot 0)).1) /\
  last (nodesVisited r) = Some "continuity".
Proof.
  apply (step_throw_reported failingGraph quiet ∅ (boot 0)
           "continuity" drafted (newError "LLM request failed")).
  - reflexivity.
  - vm_compute. right. right. left. reflexivity.
Defined.

Lemma cancelled_before_start_witness :
  run (cycleGraph None) (cancelledFrom 0) drafted (boot 0) =
  ({| world := 0%nat; runnerStatus := Cancelled;
      trace := [] ++ [EvStatus Running; EvStatus Cancelled] |},
   {| status := Cancelled; finalState := drafted; error := None;
      nodesVisited := [] |}).
Proof.
  apply (cancelled_before_start (cycleGraph None) (cancelledFrom 0) drafted (boot 0)).
  - unfold maxIter, DEFAULT_MAX_ITERATIONS. simpl. lia.
  - reflexivity.
Defined.

(** The steps of the review pipeline and the author's answer do not depend
    on the clock. *)
Lemma review_deterministic :
  deterministic reviewGraph (reviewed None) (fun _ _ => True).
Proof.
  split.
  - reflexivity.
  - intros node s w1 w2 [<-|[<-|[]]] _; split; auto.
  - intros callback i s w1 w2 Hcb. discriminate.
  - intros handler i s w1 w2 Hh _. simpl in Hh. injection Hh as <-. split; auto.
Defined.



(** The cycle makes every pass its bound admits: four passes do not end
    its loop, five do. *)
Lemma cycle_stops_at_bound :
  runWithin (cycleGraph (Some 5)) quiet 4 ∅ (boot 0) = None /\
  runWithin (cycleGraph (Some 5)) quiet 5 ∅ (boot 0) =
    Some (run (cycleGraph (Some 5)) quiet ∅ (boot 0)) /\
  length (nodesVisited (run (cycleGraph (Some 5)) quiet ∅ (boot 0)).2) = 5%nat.
Proof. repeat split; vm_compute; reflexivity. Qed.

(** * Further properties of the runner *)

Lemma concat_replicate_snoc {A : Type} (n : nat) (x : list A) :
  concat (replicate (S n) x) = (concat (replicate n x) ++ x)%list.
Proof.
  change (replicate (S n) x) with (x :: replicate n x). rewrite concat_cons.
  induction n as [|n IH]; simpl; [now rewrite app_nil_r|].
  rewrite <- app_assoc. f_equal. exact IH.
Qed.

Section RunnerFacts.

Context {World : Type}.
Variable graph : @WorkflowGraph World.
Variable context : @WorkflowContext World.

(** [run] is the loop followed by the code after it. *)
Lemma run_finish (initialState : WorkflowState) (m : @Machine World) :
  run graph context initialState m =
  finish graph (while graph context (Z.to_nat (maxIter graph - 0))
                  (initialLocals graph initialState) (setStatus Running m)).
Proof. reflexivity. Qed.

(** Whatever holds of every way of leaving the loop holds of the flow [run]
    finishes with. *)
Lemma run_flow (I : nat -> Locals -> @Machine World -> Prop)
    (F : @Machine World -> Flow -> Prop)
    (initialState : WorkflowState) (m : @Machine World) :
  (forall b l m, I b l m -> currentNodeId l = None \/ b = O -> F m (Next l)) ->
  (forall b i l m, I (S b) l m -> currentNodeId l = Some i ->
     match iteration graph context i l m with
     | (m', Next l') => I b l' m'
     | (m', f) => F m' f
     end) ->
  I (Z.to_nat (maxIter graph - 0)) (initialLocals graph initialState)
    (setStatus Running m) ->
  exists m' f,
    run graph context initialState m = finish graph (m', f) /\ F m' f.
Proof.
  intros Hexit Hpass Hstart. rewrite run_finish.
  pose proof (while_ind graph context I F Hexit Hpass _ _ _ Hstart) as HF.
  destruct (while _ _ _ _ _) as [m' f]. eauto.
Qed.

(** ** The result record and the status field *)

Lemma return_is_cancellation (initialState : WorkflowState) (m : @Machine World) :
  exists m' f,
    run graph context initialState m = finish graph (m', f) /\
    match f with
    | Return r =>
        status r = Cancelled /\ error r = None /\
        runnerStatus m' = Cancelled /\ signalAborted context (world m') = true
    | _ => True
    end.
Proof.
  apply (run_flow (fun _ _ _ => True)); [auto| |auto].
  intros _ i l m0 _ _. phases; auto.
Qed.

(** X1. [run] returns one of the statuses ['completed'], ['error'] and
    ['cancelled']; [getStatus()] then returns that status; the error field
    is set when, and only when, the status is ['error']. *)
Theorem result_status_coherent (initialState : WorkflowState) (m : @Machine World) :
  let m' := (run graph context initialState m).1 in
  let r := (run graph context initialState m).2 in
  (status r = Completed \/ status r = Error \/ status r = Cancelled) /\
  getStatus m' = status r /\
  (is_Some (error r) <-> status r = Error).
Proof.
  destruct (return_is_cancellation initialState m) as (m' & f & -> & Hf).
  destruct f as [l|r|err l]; simpl.
  - unfold afterLoop. destruct (_ >=? _)%Z; simpl;
      (split; [auto|split; [reflexivity|]]); split;
      [eauto|eauto|intros []; discriminate|discriminate].
  - destruct Hf as (Hst & Herr & Hrun & _). rewrite Hst, Herr.
    split; [auto|split; [exact Hrun|]]. split; [intros []|]; discriminate.
  - split; [auto|split; [reflexivity|]]. split; eauto.
Qed.

(** X2. [run] returns ['cancelled'] only if the signal reads aborted in the
    world it returns in; in particular never without a signal. *)
Theorem cancelled_only_when_aborted (initialState : WorkflowState)
    (m : @Machine World) :
  status (run graph context initialState m).2 = Cancelled ->
  signalAborted context (world (run graph context initialState m).1) = true /\
  is_Some (signal context).
Proof.
  destruct (return_is_cancellation initialState m) as (m' & f & -> & Hf).
  assert (Hsome : signalAborted context (world (finish graph (m', f)).1) = true ->
                  is_Some (signal context)).
  { unfold signalAborted. destruct (signal context); [eauto|discriminate]. }
  destruct f as [l|r|err l]; simpl in *.
  - unfold afterLoop in *. destruct (_ >=? _)%Z; discriminate.
  - destruct Hf as (_ & _ & _ & Hsig). auto.
  - discriminate.
Qed.

End RunnerFacts.

Section RunnerPaths.

Context {World : Type}.
Variable graph : @WorkflowGraph World.
Variable context : @WorkflowContext World.

(** ** Unknown nodes *)

(** X3. When the run arrives, not cancelled, at a node id that [graph.nodes]
    does not have, it stops with status ['error'] and the message
    [Node not found: <id>]; [finalState] and [nodesVisited] are those of the
    passes made before, and no callback is called for that id. *)
Theorem node_not_found (initialState : WorkflowState) (m0 : @Machine World)
    (b : nat) (i : WorkflowNodeId) (l : Locals) (m : @Machine World) :
  reached graph context initialState m0 (S b) l m ->
  currentNodeId l = Some i ->
  signalAborted context (world m) = false ->
  findNode graph i = None ->
  run graph context initialState m0 =
  ({| world := world m; runnerStatus := Error;
      trace := trace m ++ [EvStatus Error] |},
   {| status := Error; finalState := state l;
      error := Some ("Node not found: " ++ i);
      nodesVisited := visited l |}).
Proof.
  intros Hreached Hcur Hsig Hfind.
  assert (Hit : iteration graph context i l m
                = (m, Raise (newError ("Node not found: " ++ i)) l)).
  { unfold_phases. now rewrite Hsig, Hfind. }
  rewrite (run_ends_in_pass _ _ _ _ _ _ _ _ _ _ Hreached Hcur Hit I).
  reflexivity.
Qed.

(** ** The edges a run follows *)

(** The edge [resolveNextNode] takes, or why it takes none. *)
Lemma resolveNextNode_enabled (fromId : WorkflowNodeId) (s : WorkflowState) :
  match resolveNextNode graph fromId s with
  | Some target =>
      exists e, In e (edges graph) /\ from e = fromId /\ to e = target /\
                enabled s e = true
  | None =>
      forall e, In e (edges graph) -> from e = fromId -> enabled s e = false
  end.
Proof.
  rewrite resolveNextNode_find.
  destruct (List.find (satisfiedb fromId s) (edges graph)) as [e|] eqn:Hsat.
  - apply find_some in Hsat as [Hin Hsat]. unfold satisfiedb in Hsat.
    apply andb_prop in Hsat as [Hfrom Hcond]. apply String.eqb_eq in Hfrom.
    exists e. unfold enabled.
    destruct (condition e); [auto|discriminate].
  - destruct (List.find (defaultb fromId) (edges graph)) as [e|] eqn:Hdef; simpl.
    + apply find_some in Hdef as [Hin Hdef]. unfold defaultb in Hdef.
      apply andb_prop in Hdef as [Hfrom Hcond]. apply String.eqb_eq in Hfrom.
      exists e. unfold enabled, isUnconditional in *.
      destruct (condition e); [discriminate|auto].
    + intros e Hin Hfrom.
      pose proof (find_none _ _ Hsat e Hin) as Hs.
      pose proof (find_none _ _ Hdef e Hin) as Hd.
      unfold satisfiedb, defaultb, isUnconditional, enabled in *.
      rewrite (proj2 (String.eqb_eq _ _) Hfrom) in Hs, Hd. simpl in Hs, Hd.
      destruct (condition e); [exact Hs|discriminate].
Qed.

(** X4. [resolveNextNode] returns a node exactly when some declared edge
    that leaves [fromId] is enabled on the state (its condition is absent,
    or true), and the node it returns is the target of such an edge. *)
Theorem resolveNextNode_sound (fromId : WorkflowNodeId) (s : WorkflowState) :
  (forall target, resolveNextNode graph fromId s = Some target ->
     exists e, In e (edges graph) /\ from e = fromId /\ to e = target /\
               enabled s e = true) /\
  (resolveNextNode graph fromId s = None <->
   forall e, In e (edges graph) -> from e = fromId -> enabled s e = false).
Proof.
  pose proof (resolveNextNode_enabled fromId s) as Hres.
  destruct (resolveNextNode graph fromId s) as [target|].
  - split; [intros ? [= <-]; exact Hres|].
    split; [discriminate|]. intros Hnone.
    destruct Hres as (e & Hin & Hfrom & _ & Hen).
    rewrite (Hnone e Hin Hfrom) in Hen. discriminate.
  - split; [discriminate|]. split; auto.
Qed.

Lemma resolveNextNode_declared (a b : WorkflowNodeId) (s : WorkflowState) :
  resolveNextNode graph a s = Some b -> declaredEdge graph a b.
Proof.
  intros Hres. pose proof (resolveNextNode_enabled a s) as Hs.
  rewrite Hres in Hs. destruct Hs as (e & Hin & Hfrom & Hto & _).
  now exists e.
Qed.

Lemma linked_snoc (path : list WorkflowNodeId) (b : WorkflowNodeId) :
  linked graph path ->
  (forall a, last path = Some a -> declaredEdge graph a b) ->
  linked graph (path ++ [b]).
Proof.
  induction path as [|a path IH]; simpl; [auto|].
  destruct path as [|a' path]; simpl in *.
  - intros _ Hlast. split; [now apply Hlast|exact I].
  - intros [Hedge Hrest] Hlast. split; [exact Hedge|]. now apply IH.
Qed.

(** [nodesVisited] starts at the entry node and follows declared edges. *)
Lemma run_walk (initialState : WorkflowState) (m : @Machine World) :
  walkFrom graph (entryNode graph)
    (nodesVisited (run graph context initialState m).2).
Proof.
  destruct (run_result graph context initialState m) as [-> _].
  apply (while_ind graph context
    (fun _ l _ => walkFrom graph (entryNode graph) (visited l) /\
       (visited l = [] -> currentNodeId l = Some (entryNode graph)) /\
       forall a c, last (visited l) = Some a -> currentNodeId l = Some c ->
                   declaredEdge graph a c)
    (fun _ f => walkFrom graph (entryNode graph) (flowVisited f))).
  - intros _ l _ [Hwalk _] _. exact Hwalk.
  - intros _ i l m0 (Hwalk & Hentry & Hnext) Hcur.
    assert (Hpush : walkFrom graph (entryNode graph) (visited l ++ [i])).
    { destruct (visited l) as [|a vis] eqn:Hvis.
      - simpl. split; [|exact I]. specialize (Hentry eq_refl). congruence.
      - destruct Hwalk as [Hhead Hlinked]. split; [exact Hhead|].
        apply linked_snoc; [exact Hlinked|]. intros a' Ha'. now apply Hnext. }
    destruct (iteration graph context i l m0) as [m' f] eqn:Hit.
    destruct f as [l'|r|err l'].
    + apply iteration_next in Hit as (_ & Hvis & Hres & _).
      rewrite Hvis. split; [exact Hpush|]. split.
      * intros Hnil. now destruct (visited l).
      * intros a c Ha Hc. rewrite last_snoc in Ha. injection Ha as <-.
        rewrite Hres in Hc. now apply resolveNextNode_declared in Hc.
    + pose proof (iteration_visited graph context i l m0) as Hv.
      rewrite Hit in Hv. simpl in Hv |- *. now destruct Hv as [->|[-> _]].
    + pose proof (iteration_visited graph context i l m0) as Hv.
      rewrite Hit in Hv. simpl in Hv |- *. now destruct Hv as [->|[-> _]].
  - split; [exact I|]. split; [reflexivity|]. intros a c Ha. discriminate.
Qed.

Lemma linked_split (before after : list WorkflowNodeId) (a b : WorkflowNodeId) :
  linked graph (before ++ a :: b :: after) -> declaredEdge graph a b.
Proof.
  induction before as [|x before IH]; simpl.
  - now intros [Hedge _].
  - destruct (before ++ a :: b :: after)%list eqn:Hrest.
    + now destruct before.
    + intros [_ Hlinked]. now apply IH.
Qed.

(** X5. [nodesVisited] is a walk in the graph: any two consecutive nodes
    in it are joined by a declared edge. *)
Theorem nodesVisited_linked (initialState : WorkflowState) (m : @Machine World)
    (before after : list WorkflowNodeId) (a b : WorkflowNodeId) :
  nodesVisited (run graph context initialState m).2
    = (before ++ a :: b :: after)%list ->
  exists e, In e (edges graph) /\ from e = a /\ to e = b.
Proof.
  intros Hvis. pose proof (run_walk initialState m) as Hwalk.
  rewrite Hvis in Hwalk. apply (linked_split before after).
  destruct before; simpl in *; now destruct Hwalk.
Qed.

(** ** Completion *)

Lemma iteration_return (i : WorkflowNodeId) (l : Locals) (m m' : @Machine World)
    (r : WorkflowRunResult) :
  iteration graph context i l m = (m', Return r) -> status r = Cancelled.
Proof. intros H. phases; reflexivity. Qed.

(** A completed run has stopped at a node from which edge resolution gives
    nothing, short of the bound. *)
Lemma run_completed (initialState : WorkflowState) (m : @Machine World) :
  let r := (run graph context initialState m).2 in
  status r = Completed ->
  error r = None /\
  Z.of_nat (length (nodesVisited r)) < maxIter graph /\
  exists a, last (nodesVisited r) = Some a /\
            resolveNextNode graph a (finalState r) = None.
Proof.
  simpl.
  destruct (run_flow graph context
    (fun b l _ => b = Z.to_nat (maxIter graph - iterations l) /\
       Z.of_nat (length (visited l)) = iterations l /\
       (visited l = [] /\ is_Some (currentNodeId l) \/
        exists a, last (visited l) = Some a /\
                  currentNodeId l = resolveNextNode graph a (state l)))
    (fun _ f => match f with
       | Next l =>
           Z.of_nat (length (visited l)) = iterations l /\
           (iterations l < maxIter graph ->
            exists a, last (visited l) = Some a /\
                      resolveNextNode graph a (state l) = None)
       | Return r => status r = Cancelled
       | Raise _ _ => True
       end) initialState m) as (m' & f & -> & Hf).
  - intros b l _ (Hb & Hlen & Hlast) Hexit. split; [exact Hlen|].
    intros Hlt. destruct Hexit as [Hnone|Hzero]; [|lia].
    destruct Hlast as [[_ [c Hc]]|(a & Ha & Hres)]; [congruence|].
    exists a. split; [exact Ha|congruence].
  - intros b i l m0 (Hb & Hlen & _) Hcur.
    destruct (iteration graph context i l m0) as [m' f] eqn:Hit.
    destruct f as [l'|r|err l'];
      [|now apply iteration_return in Hit|exact I].
    apply iteration_next in Hit as (Hiter & Hvis & Hres & _).
    rewrite Hiter, Hvis, length_app. simpl.
    split; [lia|]. split; [lia|].
    right. exists i. split; [apply last_snoc|exact Hres].
  - simpl. split; [reflexivity|]. split; [reflexivity|]. left. eauto.
  - destruct f as [l|r|err l]; simpl.
    + destruct Hf as [Hlen Hsink]. unfold afterLoop.
      destruct (Z.geb_spec (iterations l) (maxIter graph)); simpl;
        [discriminate|].
      intros _. split; [reflexivity|]. split; [lia|]. apply Hsink. lia.
    + rewrite Hf. discriminate.
    + discriminate.
Qed.

(** X6. A run returns ['completed'] only from a node where nothing leads
    on: [nodesVisited] is not empty, no declared edge of its last node is
    enabled on [finalState], no error is set, and fewer than [maxIter]
    nodes were visited. *)
Theorem completed_at_sink (initialState : WorkflowState) (m : @Machine World) :
  let r := (run graph context initialState m).2 in
  status r = Completed ->
  error r = None /\
  Z.of_nat (length (nodesVisited r)) < maxIter graph /\
  exists a, last (nodesVisited r) = Some a /\
    forall e, In e (edges graph) -> from e = a ->
              enabled (finalState r) e = false.
Proof.
  intros r Hst. destruct (run_completed initialState m Hst)
    as (Herr & Hlen & a & Hlast & Hres).
  split; [exact Herr|]. split; [exact Hlen|].
  exists a. split; [exact Hlast|].
  pose proof (resolveNextNode_enabled a (finalState r)) as Hen.
  fold r in Hres. now rewrite Hres in Hen.
Qed.

End RunnerPaths.

Section RunnerTraces.

Context {World : Type}.
Variable graph : @WorkflowGraph World.
Variable context : @WorkflowContext World.

(** ** The status field over a run *)

Lemma pauses_snoc (n : nat) : pauses (S n) = (pauses n ++ pause)%list.
Proof. apply concat_replicate_snoc. Qed.

(** No handler throws within a pause that is resumed. *)
Lemma pauses_returned (n : nat) : ~ In (Asked false) (pauses n).
Proof.
  induction n as [|n IH]; [intros []|].
  change (pauses (S n)) with (pause ++ pauses n)%list.
  intros Hin. apply in_app_iff in Hin as [Hin|Hin]; [|auto].
  simpl in Hin. intuition discriminate.
Qed.

(** A run ends in a pause that is not resumed exactly when a handler call
    that threw shows in it. *)
Lemma ending_broken (n : nat) (ending : list Control) :
  In ending endings ->
  ending = brokenPause <->
  In (Asked false) (Wrote Running :: pauses n ++ ending)%list.
Proof.
  intros Hending. split.
  - intros ->. right. apply in_app_iff. right. simpl. auto.
  - intros [Hin|Hin]; [discriminate|].
    apply in_app_iff in Hin as [Hin|Hin]; [now apply pauses_returned in Hin|].
    simpl in Hending.
    destruct Hending as [<-|[<-|[<-|[<-|[]]]]]; simpl in Hin;
      try reflexivity; intuition discriminate.
Qed.

Lemma asked_thrown (t : list Event) :
  In (Asked false) (omap control t) <->
  exists i s err, In (EvBreakpoint i s (Throws err)) t.
Proof.
  rewrite <- list_elem_of_In, list_elem_of_omap. split.
  - intros (ev & Hev & Hcontrol). apply list_elem_of_In in Hev.
    destruct ev as [st|i s out|i s out|i s [s'|err]]; try discriminate.
    eauto.
  - intros (i & s & err & Hev). apply list_elem_of_In in Hev. eauto.
Qed.

(** The handler is only called at breakpoints. *)
Lemma atBreakpoints_run (initialState : WorkflowState) (m : @Machine World) :
  trace m = [] ->
  atBreakpoints (trace (run graph context initialState m).1).
Proof.
  intros Hfresh.
  assert (Hstatus : forall t st,
            atBreakpoints t -> atBreakpoints (t ++ [EvStatus st])).
  { intros t st Ht i s out Hin.
    apply in_app_iff in Hin as [Hin|[Hin|[]]]; [|discriminate].
    destruct (Ht _ _ _ Hin) as (s0 & s1 & H0 & H1). exists s0, s1.
    split; [apply in_app_iff; now left|exact H1]. }
  destruct (run_flow graph context
    (fun _ _ m => atBreakpoints (trace m))
    (fun m _ => atBreakpoints (trace m)) initialState m) as (m' & f & -> & Hf).
  - auto.
  - intros _ i l m0 Hat Hcur.
    phases; auto; intros j s out Hin;
      repeat (apply in_app_iff in Hin as [Hin|[Hin|[]]]);
      try discriminate;
      try (destruct (Hat _ _ _ Hin) as (s0 & s1 & H0 & H1); exists s0, s1;
           split; [rewrite !in_app_iff; auto 10|exact H1]).
    all: simplify_eq; eexists _, _;
      (split; [rewrite !in_app_iff; simpl; eauto 12|auto]).
  - simpl. rewrite Hfresh. intros i s out [Hin|[]]. discriminate.
  - destruct f as [l|r|err l]; simpl;
      [unfold afterLoop; destruct (_ >=? _)%Z; simpl|..]; auto.
Qed.

(** X7. Over a run the status field is written ['running'] first; then,
    once for each call of the breakpoint handler that returns and at no
    other time, ['paused'] before the call and ['running'] after it; last,
    once, ['completed'], ['error'] or ['cancelled'], or else ['paused'], a
    call of the handler that throws, and ['error'].  The number of pauses
    resumed is the number of handler calls that returned; the run ends in
    the pause that is not resumed exactly when a handler call threw; the
    handler is called only for a node whose step returned a truthy
    [__breakpoint].  Without an [onBreakpoint] handler the status is never
    ['paused']. *)
Theorem status_protocol (initialState : WorkflowState) (m : @Machine World) :
  trace m = [] ->
  let t := trace (run graph context initialState m).1 in
  exists n ending,
    omap control t = (Wrote Running :: pauses n ++ ending)%list /\
    In ending endings /\
    n = length (List.filter handlerReturned t) /\
    (ending = brokenPause <->
     exists i s err, In (EvBreakpoint i s (Throws err)) t) /\
    atBreakpoints t /\
    (onBreakpoint context = None -> n = O /\ ending <> brokenPause).
Proof.
  intros Hfresh t.
  set (written := fun (m : @Machine World) (tail : list Control) =>
    exists n, omap control (trace m) = (Wrote Running :: pauses n ++ tail)%list /\
              n = length (List.filter handlerReturned (trace m)) /\
              (onBreakpoint context = None -> n = O)).
  assert (Hmain : exists n ending,
    omap control t = (Wrote Running :: pauses n ++ ending)%list /\
    In ending endings /\
    n = length (List.filter handlerReturned t) /\
    (onBreakpoint context = None -> n = O /\ ending <> brokenPause)).
  { subst t.
    destruct (run_flow graph context
      (fun _ _ m => written m [])
      (fun m f => match f with
         | Next _ => written m []
         | Return _ => written m [Wrote Cancelled]
         | Raise _ _ =>
             written m [] \/
             written m [Wrote Paused; Asked false] /\
             is_Some (onBreakpoint context)
         end) initialState m) as (m' & f & -> & Hf).
    - intros _ l m0 H _. exact H.
    - intros _ i l m0 Hwritten Hcur. unfold written.
      phases; destruct Hwritten as (n & Hst & Hn & Hno);
        rewrite ?omap_app, ?Hst; simpl;
        first
          [ exists n; split; [same_list|split; [counted|exact Hno]]
          | exists (S n); split; [rewrite pauses_snoc; same_list|];
            split; [counted|congruence]
          | left; exists n; split; [same_list|split; [counted|exact Hno]]
          | right; split; [|eauto];
            exists n; split; [same_list|split; [counted|exact Hno]] ].
    - exists O. simpl. rewrite Hfresh. auto.
    - assert (Hnever : onBreakpoint context = None ->
                       forall n, (onBreakpoint context = None -> n = O) ->
                       forall st, n = O /\ [st] <> brokenPause).
      { intros Hnone n Hno st. split; [auto|discriminate]. }
      unfold endings. destruct f as [l|r|err l]; simpl.
      + destruct Hf as (n & Hst & Hn & Hno). unfold afterLoop.
        destruct (_ >=? _)%Z; simpl; rewrite omap_app, Hst; simpl.
        * exists n, [Wrote Error]. split; [same_list|].
          split; [simpl; auto|]. split; [counted|eauto].
        * exists n, [Wrote Completed]. split; [same_list|].
          split; [simpl; auto|]. split; [counted|eauto].
      + destruct Hf as (n & Hst & Hn & Hno). rewrite Hst.
        exists n, [Wrote Cancelled]. split; [reflexivity|].
        split; [simpl; auto|]. split; [exact Hn|eauto].
      + rewrite omap_app. simpl.
        destruct Hf as [(n & Hst & Hn & Hno)|[(n & Hst & Hn & Hno) [h Hh]]];
          rewrite Hst.
        * exists n, [Wrote Error]. split; [same_list|].
          split; [simpl; auto|]. split; [counted|eauto].
        * exists n, brokenPause. split; [same_list|].
          split; [simpl; auto|]. split; [counted|congruence]. }
  destruct Hmain as (n & ending & Heq & Hending & Hn & Hno).
  exists n, ending.
  split; [exact Heq|]. split; [exact Hending|]. split; [exact Hn|].
  split; [|split; [now apply atBreakpoints_run|exact Hno]]. split.
  - intros ->. apply asked_thrown. fold t. rewrite Heq.
    now apply ending_broken.
  - intros Hthrown. apply (ending_broken n ending Hending).
    rewrite <- Heq. now apply asked_thrown.
Qed.

(** ** Progress reports *)

(** X8. With an [onProgress] callback, it is called once after each step
    that returns, in order, with that node's id and the state the step
    returned, and at no other time; without one it is never called. *)
Theorem progress_follows_steps (initialState : WorkflowState) (m : @Machine World) :
  trace m = [] ->
  omap progressed (trace (run graph context initialState m).1) =
  match onProgress context with
  | Some _ => omap stepped (trace (run graph context initialState m).1)
  | None => []
  end.
Proof.
  intros Hfresh.
  set (reported := fun (m : @Machine World) =>
    omap progressed (trace m) =
    match onProgress context with
    | Some _ => omap stepped (trace m)
    | None => []
    end).
  destruct (run_flow graph context (fun _ _ m => reported m)
              (fun m _ => reported m) initialState m) as (m' & f & -> & Hf).
  - intros _ l m0 H _. exact H.
  - intros _ i l m0 Hrep Hcur. unfold reported in *.
    phases; rewrite ?omap_app, ?Hrep; simpl; rewrite ?app_nil_r;
      try reflexivity; try congruence.
  - unfold reported. simpl. rewrite Hfresh. simpl. now destruct (onProgress context).
  - unfold reported in Hf.
    destruct f as [l|r|err l]; simpl; [unfold afterLoop; destruct (_ >=? _)%Z; simpl|..];
      rewrite ?omap_app, ?Hf; simpl; rewrite ?app_nil_r;
      try reflexivity; now destruct (onProgress context).
Qed.

End RunnerTraces.

(** * Closed graphs and the shipped pipelines *)

Section ClosedGraphs.

Context {World : Type}.
Variable graph : @WorkflowGraph World.
Variable context : @WorkflowContext World.

(** X9. On a graph whose entry node and edge targets are all declared and
    whose edge conditions return on every state (they are functions here),
    a run never fails on a missing node: when it returns ['error'], the
    error is the iteration bound's, or it is [err.message || String(err)]
    for a value of [JsError] that a step, the progress callback or the
    breakpoint handler threw. *)
Theorem closed_graph_errors (initialState : WorkflowState) (m : @Machine World) :
  closed graph ->
  trace m = [] ->
  let m' := (run graph context initialState m).1 in
  let r := (run graph context initialState m).2 in
  status r = Error ->
  error r = Some ("Max iterations (" ++ pretty (maxIter graph) ++ ") exceeded") \/
  exists ev i s err,
    In ev (trace m') /\ failure ev = Some (i, s, err) /\
    error r = Some (errorText err).
Proof.
  intros [Hentry Hedges] Hfresh m' r Hst.
  destruct (run_flow graph context
    (fun _ l _ => forall c, currentNodeId l = Some c -> is_Some (findNode graph c))
    (fun m f => match f with
       | Raise _ _ => omap failure (trace m) <> []
       | Return r => status r = Cancelled
       | Next _ => True
       end) initialState m) as (m1 & f & Hrun & Hf).
  - auto.
  - intros _ i l m0 Hfound Hcur.
    destruct (Hfound i Hcur) as [node Hnode].
    destruct (iteration graph context i l m0) as [m1 f] eqn:Hit.
    destruct f as [l'|r0|err l'].
    + apply iteration_next in Hit as (_ & _ & Hres & _).
      intros c Hc. rewrite Hres in Hc.
      apply resolveNextNode_declared in Hc as (e & Hin & _ & <-). auto.
    + now apply (iteration_return graph context) in Hit.
    + revert Hit. clear -Hnode. intros Hit.
      phases; rewrite ?omap_app; simpl;
        intros Hnil; apply app_eq_nil in Hnil as [_ Hnil];
        try discriminate;
        repeat (apply app_eq_nil in Hnil as [Hnil _]; try discriminate).
  - intros c [= <-]. exact Hentry.
  - destruct f as [l|r0|err l].
    + left. subst r. rewrite Hrun in *. simpl in *. unfold afterLoop in *.
      destruct (_ >=? _)%Z; [reflexivity|discriminate].
    + subst r. rewrite Hrun in Hst. simpl in Hst. congruence.
    + right. destruct (omap failure (trace m1)) as [|[[i s] err'] fs] eqn:Hfail;
        [congruence|].
      assert (Hin : (i, s, err') ∈ omap failure (trace m1))
        by (rewrite Hfail; left).
      apply list_elem_of_omap in Hin as (ev & Hev & Hfailure).
      apply list_elem_of_In in Hev.
      assert (Hev' : In ev (trace m')).
      { subst m'. rewrite Hrun. simpl. apply in_app_iff. now left. }
      exists ev, i, s, err'. split; [exact Hev'|]. split; [exact Hfailure|].
      destruct (run_accounted graph context initialState m Hfresh) as [_ Hacc].
      now destruct (Hacc ev i s err' Hev' Hfailure) as (_ & Herr & _).
Qed.

End ClosedGraphs.

Section Pipelines.

Context {World : Type}.
Variable context : @WorkflowContext World.

(** ** Dialogue refinement *)

Section Dialogue.

Variables gatherProfilesNode ragSamplesNode analyzeVoiceNode refineNode
          evaluateNode : @WorkflowNodeFn World.

Let dialogue : @WorkflowGraph World :=
  DialogueRefine.buildDialogueRefineGraph gatherProfilesNode ragSamplesNode
    analyzeVoiceNode refineNode evaluateNode.

Lemma dialogue_closed : closed dialogue.
Proof. closed_by_lookup. Qed.

(** X10. A dialogue-refinement run visits the five stages in their order
    and stops nowhere but where a stage fails or the run is cancelled:
    [nodesVisited] is a prefix of the stage list, and it is the whole list
    when the run completes. *)
Theorem dialogue_stages (initialState : WorkflowState) (m : @Machine World) :
  let r := (run dialogue context initialState m).2 in
  (exists rest, DialogueRefine.stages = (nodesVisited r ++ rest)%list) /\
  (status r = Completed -> nodesVisited r = DialogueRefine.stages).
Proof.
  intros r.
  pose proof (run_walk dialogue context initialState m) as Hwalk.
  pose proof (run_completed dialogue context initialState m) as Hdone.
  fold r in Hwalk, Hdone. simpl in Hdone.
  destruct (nodesVisited r) as [|v vis] eqn:Hvis.
  - split; [now eexists|]. intros Hst.
    now destruct (Hdone Hst) as (_ & _ & a & Ha & _).
  - destruct Hwalk as [-> Hlinked]. walk;
      (split; [now eexists|]); intros Hst;
      destruct (Hdone Hst) as (_ & _ & a & [= <-] & Hsink);
      solve [reflexivity | discriminate Hsink].
Qed.

End Dialogue.

(** ** Brainstorming *)

Section Brainstorm.

Variables gatherContextNode ragContextNode analyzeStateNode generateBeatsNode
          expandBeatNode : @WorkflowNodeFn World.

Let brainstorm : @WorkflowGraph World :=
  BrainstormBeats.buildBrainstormGraph gatherContextNode ragContextNode
    analyzeStateNode generateBeatsNode expandBeatNode.

Lemma brainstorm_closed : closed brainstorm.
Proof. closed_by_lookup. Qed.

(** X11. A brainstorming run visits its stages in order, a prefix of the
    four generation stages followed by [expandBeat].  When it completes it
    has either stopped after [generateBeats], with [selectedBeatIndex]
    [null] in [finalState], or gone on through [expandBeat]. *)
Theorem brainstorm_stages (initialState : WorkflowState) (m : @Machine World) :
  let r := (run brainstorm context initialState m).2 in
  (exists rest,
     (BrainstormBeats.generation ++ ["expandBeat"] = nodesVisited r ++ rest)%list) /\
  (status r = Completed ->
   nodesVisited r = BrainstormBeats.generation /\
     getProp (finalState r) "selectedBeatIndex" = JsNull \/
   nodesVisited r = (BrainstormBeats.generation ++ ["expandBeat"])%list).
Proof.
  intros r.
  pose proof (run_walk brainstorm context initialState m) as Hwalk.
  pose proof (run_completed brainstorm context initialState m) as Hdone.
  fold r in Hwalk, Hdone. simpl in Hdone.
  destruct (nodesVisited r) as [|v vis] eqn:Hvis.
  - split; [now eexists|]. intros Hst.
    now destruct (Hdone Hst) as (_ & _ & a & Ha & _).
  - destruct Hwalk as [-> Hlinked]. walk;
      (split; [now eexists|]); intros Hst;
      destruct (Hdone Hst) as (_ & _ & a & [= <-] & Hsink);
      try discriminate Hsink; [|now right].
    left. split; [reflexivity|].
    unfold resolveNextNode in Hsink. simpl in Hsink.
    unfold BrainstormBeats.beatSelected in Hsink.
    destruct (getProp (finalState r) "selectedBeatIndex");
      solve [reflexivity | discriminate Hsink].
Qed.

End Brainstorm.

(** ** Continuity repair *)

Section Continuity.

Variables gatherCanonNode auditNode repairNode reportNode : @WorkflowNodeFn World.
Variable repairWanted : WorkflowState -> bool.

Let continuity : @WorkflowGraph World :=
  ContinuityRepair.buildContinuityRepairGraph gatherCanonNode auditNode
    repairNode reportNode repairWanted.

Lemma continuity_closed : closed continuity.
Proof. closed_by_lookup. Qed.

(** X12. A continuity-repair run gathers the canon, audits, repairs or
    not, and reports, in that order; whatever the repair condition
    computes, when it completes [nodesVisited] is one of the two full
    sequences, so the report stage has run, once and last. *)
Theorem continuity_stages (initialState : WorkflowState) (m : @Machine World) :
  let r := (run continuity context initialState m).2 in
  (exists rest,
     ["gatherCanon"; "audit"; "report"] = (nodesVisited r ++ rest)%list \/
     ["gatherCanon"; "audit"; "repair"; "report"] = (nodesVisited r ++ rest)%list) /\
  (status r = Completed ->
   nodesVisited r = ["gatherCanon"; "audit"; "report"] \/
   nodesVisited r = ["gatherCanon"; "audit"; "repair"; "report"]).
Proof.
  intros r.
  pose proof (run_walk continuity context initialState m) as Hwalk.
  pose proof (run_completed continuity context initialState m) as Hdone.
  fold r in Hwalk, Hdone. simpl in Hdone.
  destruct (nodesVisited r) as [|v vis] eqn:Hvis.
  - split; [eexists; now left|]. intros Hst.
    now destruct (Hdone Hst) as (_ & _ & a & Ha & _).
  - destruct Hwalk as [-> Hlinked]. walk;
      (split; [eexists; first [now left|now right]|]); intros Hst;
      destruct (Hdone Hst) as (_ & _ & a & [= <-] & Hsink);
      try solve [now left | now right];
      exfalso; unfold resolveNextNode in Hsink; simpl in Hsink;
      destruct (repairWanted _); discriminate Hsink.
Qed.

End Continuity.

(** ** Scene drafting *)

Section Scene.

Variables identifyNode constraintsNode ragNode generateNode continuityNode
          deltasNode reviseNode evaluateNode finalizeNode : @WorkflowNodeFn World.
Variable revisionWanted : WorkflowState -> bool.

Let scene : @WorkflowGraph World :=
  SceneDraft.buildSceneDraftGraph identifyNode constraintsNode ragNode
    generateNode continuityNode deltasNode reviseNode evaluateNode finalizeNode
    revisionWanted.

Lemma scene_closed : closed scene.
Proof. closed_by_lookup. Qed.

(** After a continuity check come rounds of revision, then either a last
    revision under way or the closing stages. *)
Lemma scene_after_continuity (n : nat) (rest : list WorkflowNodeId) :
  (length rest <= n)%nat ->
  linked scene ("continuity" :: rest) ->
  exists k tail more,
    rest = (SceneDraft.revisions k ++ tail)%list /\
    (["revise"] = (tail ++ more)%list \/ SceneDraft.closing = (tail ++ more)%list).
Proof.
  revert rest. induction n as [|n IH]; intros rest Hlen Hlinked.
  - destruct rest; [|simpl in Hlen; lia].
    exists O, [], ["revise"]. split; [reflexivity|now left].
  - destruct rest as [|b rest].
    { exists O, [], ["revise"]. split; [reflexivity|now left]. }
    next_stage Hlinked.
    + destruct rest as [|c rest].
      { exists O, ["revise"], []. split; [reflexivity|now left]. }
      next_stage Hlinked.
      destruct (IH rest) as (k & tail & more & -> & Htail);
        [simpl in Hlen; lia|exact Hlinked|].
      exists (S k), tail, more. split; [reflexivity|exact Htail].
    + walk; exists O; eexists _, _; (split; [reflexivity|right; reflexivity]).
Qed.

Lemma revisions_snoc (k : nat) :
  SceneDraft.revisions (S k)
  = (SceneDraft.revisions k ++ ["revise"; "continuity"])%list.
Proof. apply concat_replicate_snoc. Qed.

Lemma last_opening_revisions (k : nat) :
  last (SceneDraft.opening ++ SceneDraft.revisions k) = Some "continuity".
Proof.
  destruct k as [|k]; [reflexivity|].
  rewrite revisions_snoc, !app_assoc.
  change (["revise"; "continuity"]) with (["revise"] ++ ["continuity"])%list.
  rewrite app_assoc. apply last_snoc.
Qed.

Lemma length_revisions (k : nat) :
  length (SceneDraft.revisions k) = (2 * k)%nat.
Proof.
  induction k as [|k IH]; [reflexivity|].
  rewrite revisions_snoc, length_app, IH. simpl. lia.
Qed.

(** X13. A scene-draft run goes through identify, constraints, rag,
    generate and continuity, then through rounds of revise and continuity,
    then through deltas, evaluate and finalize, in that order.  When it
    completes it has run all of them, [finalize] last, with at most five
    rounds of revision under the bound of 20. *)
Theorem scene_stages (initialState : WorkflowState) (m : @Machine World) :
  let r := (run scene context initialState m).2 in
  ((exists rest, SceneDraft.opening = (nodesVisited r ++ rest)%list) \/
   exists k tail more,
     nodesVisited r = (SceneDraft.opening ++ SceneDraft.revisions k ++ tail)%list /\
     (["revise"] = (tail ++ more)%list \/
      SceneDraft.closing = (tail ++ more)%list)) /\
  (status r = Completed ->
   exists k,
     nodesVisited r
       = (SceneDraft.opening ++ SceneDraft.revisions k ++ SceneDraft.closing)%list /\
     (k <= 5)%nat).
Proof.
  intros r.
  pose proof (run_walk scene context initialState m) as Hwalk.
  pose proof (run_completed scene context initialState m) as Hdone.
  fold r in Hwalk, Hdone. simpl in Hdone.
  assert (Hshape :
    (exists rest, SceneDraft.opening = (nodesVisited r ++ rest)%list) \/
    exists k tail more,
      nodesVisited r = (SceneDraft.opening ++ SceneDraft.revisions k ++ tail)%list /\
      (["revise"] = (tail ++ more)%list \/
       SceneDraft.closing = (tail ++ more)%list)).
  { destruct (nodesVisited r) as [|v vis]; [left; now eexists|].
    destruct Hwalk as [-> Hlinked].
    do 4 (destruct vis as [|? vis]; [left; now eexists|next_stage Hlinked]).
    right.
    destruct (scene_after_continuity (length vis) vis (le_n _) Hlinked)
      as (k & tail & more & -> & Htail).
    now exists k, tail, more. }
  split; [exact Hshape|].
  intros Hst. destruct (Hdone Hst) as (_ & Hlen & a & Hlast & Hsink).
  assert (Hnot : forall b, In b ["identify"; "constraints"; "rag"; "generate";
                                 "continuity"; "revise"; "deltas"; "evaluate"] ->
                           a <> b).
  { intros b Hb ->. unfold resolveNextNode in Hsink.
    simpl in Hb. repeat (destruct Hb as [<-|Hb]; [simpl in Hsink|]);
      try contradiction; try discriminate Hsink.
    destruct (revisionWanted _); discriminate Hsink. }
  assert (Hsink' : forall b, last (nodesVisited r) = Some b ->
                    In b ["identify"; "constraints"; "rag"; "generate";
                          "continuity"; "revise"; "deltas"; "evaluate"] -> False).
  { intros b Hb Hin. rewrite Hlast in Hb. injection Hb as ->. now apply (Hnot b). }
  clear Hnot Hsink.
  destruct Hshape as [[rest Hopen]|(k & tail & more & Hvis & Htail)].
  - exfalso. unfold SceneDraft.opening in Hopen.
    destruct (nodesVisited r) as [|v1 vis]; [discriminate Hlast|].
    repeat (destruct vis as [|? vis];
            [simpl in Hopen; simplify_eq;
             eapply Hsink'; [reflexivity|simpl; auto 12]|]);
      simpl in Hopen; simplify_eq.
  - clear Hlast. rewrite Hvis in Hsink', Hlen.
    assert (Htail' : tail = SceneDraft.closing).
    { assert (Hempty : tail = [] -> False).
      { intros ->. rewrite app_nil_r in Hsink'.
        eapply Hsink'; [apply last_opening_revisions|simpl; auto 12]. }
      destruct Htail as [Htail|Htail].
      - destruct tail as [|t1 [|t2 tail]]; simpl in Htail; simplify_eq;
          exfalso; try (now apply Hempty).
        eapply Hsink'; [rewrite app_assoc, last_app_cons; reflexivity|].
        simpl; auto 12.
      - unfold SceneDraft.closing in *.
        destruct tail as [|t1 [|t2 [|t3 [|t4 tail]]]]; simpl in Htail;
          simplify_eq; try reflexivity; exfalso; try (now apply Hempty);
          (eapply Hsink'; [rewrite app_assoc, last_app_cons; reflexivity|]);
          simpl; auto 12. }
    subst tail. exists k. split; [exact Hvis|].
    rewrite !length_app, length_revisions in Hlen.
    unfold maxIter in Hlen. simpl in Hlen. lia.
Qed.

End Scene.

End Pipelines.

(** X20. The four shipped graphs are closed, whatever their node functions
    and conditions: the entry node and the target of every edge are
    declared nodes, so that no run of them can end in [Node not found]. *)
Theorem shipped_graphs_closed {World : Type}
    (n1 n2 n3 n4 n5 n6 n7 n8 n9 : @WorkflowNodeFn World)
    (condition : WorkflowState -> bool) :
  closed (DialogueRefine.buildDialogueRefineGraph n1 n2 n3 n4 n5) /\
  closed (BrainstormBeats.buildBrainstormGraph n1 n2 n3 n4 n5) /\
  closed (ContinuityRepair.buildContinuityRepairGraph n1 n2 n3 n4 condition) /\
  closed (SceneDraft.buildSceneDraftGraph n1 n2 n3 n4 n5 n6 n7 n8 n9 condition).
Proof.
  split; [apply dialogue_closed|].
  split; [apply brainstorm_closed|].
  split; [apply continuity_closed|apply scene_closed].
Qed.

(** * The project registry *)

Module ProjectRegistryFacts.
Import ProjectRegistry.

Lemma find_hasId_known (projectId : string) (ps : list ProjectConfig) :
  (exists p, In p ps /\ id p = projectId) <->
  is_Some (List.find (hasId projectId) ps).
Proof.
  split.
  - intros (p & Hin & Hid).
    destruct (List.find (hasId projectId) ps) eqn:Hfind; [eauto|].
    pose proof (find_none _ _ Hfind p Hin) as Hno.
    unfold hasId in Hno. rewrite Hid, String.eqb_refl in Hno. discriminate.
  - intros [p Hfind]. apply find_some in Hfind as [Hin Hid].
    exists p. split; [exact Hin|]. now apply String.eqb_eq.
Qed.

Lemma existsb_hasId (projectId : string) (ps : list ProjectConfig) :
  existsb (hasId projectId) ps = true <-> exists p, In p ps /\ id p = projectId.
Proof.
  rewrite existsb_exists. unfold hasId.
  split; intros (p & Hin & Hid); exists p; (split; [exact Hin|]);
    now apply String.eqb_eq.
Qed.

Lemma findIndex_lookup (projectId : string) (ps : list ProjectConfig) (idx : nat) :
  findIndex projectId ps = Some idx ->
  exists p, ps !! idx = Some p /\ id p = projectId /\
            forall j q, (j < idx)%nat -> ps !! j = Some q -> id q <> projectId.
Proof.
  revert idx. induction ps as [|p ps IH]; intros idx; simpl; [discriminate|].
  unfold hasId at 1. destruct (String.eqb_spec (id p) projectId) as [Heq|Hne].
  - intros [= <-]. exists p. repeat split; auto. intros j q Hj. lia.
  - destruct (findIndex projectId ps) as [k|]; simpl; [|discriminate].
    intros [= <-]. destruct (IH k eq_refl) as (q & Hq & Hid & Hbefore).
    exists q. repeat split; auto.
    intros [|j] q' Hj; simpl; [now intros [= <-]|].
    apply Hbefore. lia.
Qed.

Lemma findIndex_none (projectId : string) (ps : list ProjectConfig) :
  findIndex projectId ps = None <-> forall p, In p ps -> id p <> projectId.
Proof.
  induction ps as [|p ps IH]; simpl; [now split|].
  unfold hasId at 1. destruct (String.eqb_spec (id p) projectId) as [Heq|Hne].
  - split; [discriminate|]. intros H. now destruct (H p (or_introl eq_refl)).
  - destruct (findIndex projectId ps); simpl.
    + split; [discriminate|]. intros H.
      assert (Hnone : Some n = None)
        by (apply IH; intros q Hq; apply H; now right).
      discriminate.
    + split; [|reflexivity]. intros _ q [<-|Hq]; [exact Hne|].
      now apply (proj1 IH).
Qed.

Lemma ids_after_update (ps : list ProjectConfig) (idx : nat)
    (old : ProjectConfig) (updates : Updates) (updated : string) :
  ps !! idx = Some old ->
  map id (<[idx := applyUpdates updates updated old]> ps) = map id ps.
Proof.
  revert idx. induction ps as [|p ps IH]; intros [|idx]; simpl;
    try discriminate.
  - now intros [= ->].
  - intros Hold. f_equal. now apply IH.
Qed.

Lemma known_by_ids (ps qs : list ProjectConfig) (wanted : string) :
  map id ps = map id qs ->
  (exists p, In p ps /\ id p = wanted) -> exists q, In q qs /\ id q = wanted.
Proof.
  intros Hids (p & Hin & Hid).
  assert (Hw : In wanted (map id qs))
    by (rewrite <- Hids, <- Hid; now apply in_map).
  apply in_map_iff in Hw as (q & Hq & Hin'). eauto.
Qed.

(** X14. Whatever is stored, if the active id names a project of the
    registry (or is [null]), it still does after a project is created,
    updated or deleted, and after [setActiveProject] with [null] or a
    non-empty id, whether that call succeeds or throws. *)
Theorem active_stays_known (stored : Stored) :
  activeKnown (loadRegistry stored) ->
  (forall newId created updated name notebookIds tagIds,
     activeKnown (loadRegistry
       (createProject newId created updated name notebookIds tagIds stored).1)) /\
  (forall projectId, projectId <> Some "" ->
     activeKnown (loadRegistry (setActiveProject projectId stored).1)) /\
  (forall updated projectId updates,
     activeKnown (loadRegistry (updateProject updated projectId updates stored).1)) /\
  (forall projectId, activeKnown (loadRegistry (deleteProject projectId stored))).
Proof.
  intros Hknown. unfold activeKnown in *. repeat split.
  - intros newId created updated name0 nb tags. simpl.
    destruct (Nat.eqb _ 1).
    + eexists. split; [apply in_app_iff; right; now left|reflexivity].
    + destruct (activeProjectId (loadRegistry stored)); [|exact I].
      destruct Hknown as (p & Hin & Hid). exists p.
      split; [apply in_app_iff; now left|exact Hid].
  - intros [wanted|] Hne; simpl; [|exact I].
    destruct (String.eqb_spec wanted ""); [congruence|]. simpl.
    destruct (existsb (hasId wanted) (projects (loadRegistry stored))) eqn:Hex;
      simpl; [now apply existsb_hasId|exact Hknown].
  - intros updated projectId updates. unfold updateProject.
    destruct (findIndex _ _) as [idx|]; [|exact Hknown].
    destruct (projects (loadRegistry stored) !! idx) as [old|] eqn:Hold;
      [|exact Hknown].
    simpl. destruct (activeProjectId (loadRegistry stored)); [|exact I].
    eapply known_by_ids; [|exact Hknown].
    symmetry. now apply ids_after_update.
  - intros projectId. simpl.
    destruct (activeProjectId (loadRegistry stored)) as [current|]; [|exact I].
    destruct (String.eqb_spec current projectId) as [->|Hne].
    + destruct (List.filter _ _) as [|first rest]; [exact I|].
      exists first. split; [now left|reflexivity].
    + destruct Hknown as (p & Hin & Hid). exists p. split; [|exact Hid].
      apply filter_In. split; [exact Hin|].
      unfold hasId. rewrite Hid.
      now destruct (String.eqb_spec current projectId).
Qed.

(** X15. Selecting a project and reading the selection back:
    [setActiveProject] with the non-empty id of a project makes
    [getActiveProject] return the first project with that id; with [null]
    it makes it return [null]; with a non-empty id that no project has it
    throws [Project not found: <id>] and stores nothing. *)
Theorem select_then_get (stored : Stored) (wanted : string) :
  wanted <> "" ->
  (forall p, List.find (hasId wanted) (projects (loadRegistry stored)) = Some p ->
     (setActiveProject (Some wanted) stored).2 = Normal tt /\
     getActiveProject (setActiveProject (Some wanted) stored).1 = Some p) /\
  (List.find (hasId wanted) (projects (loadRegistry stored)) = None ->
     setActiveProject (Some wanted) stored
       = (stored, Throws (newError ("Project not found: " ++ wanted)))) /\
  getActiveProject (setActiveProject None stored).1 = None.
Proof.
  intros Hne.
  assert (Htruthy : truthyId (Some wanted) = true).
  { simpl. now destruct (String.eqb_spec wanted ""). }
  repeat split.
  - unfold setActiveProject. rewrite Htruthy.
    assert (Hex : existsb (hasId wanted) (projects (loadRegistry stored)) = true).
    { apply existsb_hasId, find_hasId_known. eauto. }
    now rewrite Hex.
  - unfold setActiveProject. rewrite Htruthy.
    assert (Hex : existsb (hasId wanted) (projects (loadRegistry stored)) = true).
    { apply existsb_hasId, find_hasId_known. eauto. }
    rewrite Hex. unfold getActiveProject. simpl.
    destruct (String.eqb_spec wanted ""); [congruence|]. exact H.
  - intros Hnone. unfold setActiveProject. rewrite Htruthy.
    destruct (existsb (hasId wanted) (projects (loadRegistry stored))) eqn:Hex;
      [|reflexivity].
    apply existsb_hasId, find_hasId_known in Hex as [p Hp]. congruence.
Qed.

(** X16. [updateProject] with an id that no project has throws
    [Project not found: <id>] and stores nothing.  Otherwise it rewrites the
    first project with that id and no other: the list keeps its length, the
    other positions and the active id are untouched, the project keeps its
    id and creation time, takes the new update time and, for each field,
    the given value or else its old one; that project is what is
    returned. *)
Theorem update_rewrites_one (stored : Stored) (updated projectId : string)
    (updates : Updates) :
  let before := loadRegistry stored in
  ((forall p, In p (projects before) -> id p <> projectId) ->
   updateProject updated projectId updates stored
     = (stored, Throws (newError ("Project not found: " ++ projectId)))) /\
  ((exists p, In p (projects before) /\ id p = projectId) ->
   exists idx old,
     projects before !! idx = Some old /\ id old = projectId /\
     (forall j q, (j < idx)%nat -> projects before !! j = Some q ->
                  id q <> projectId) /\
     let project := applyUpdates updates updated old in
     let after := loadRegistry (updateProject updated projectId updates stored).1 in
     (updateProject updated projectId updates stored).2 = Normal project /\
     activeProjectId after = activeProjectId before /\
     length (projects after) = length (projects before) /\
     projects after !! idx = Some project /\
     (forall j, j <> idx -> projects after !! j = projects before !! j) /\
     id project = projectId /\ createdAt project = createdAt old /\
     updatedAt project = updated /\
     name project = default (name old) (newName updates) /\
     notebookIds project = default (notebookIds old) (newNotebookIds updates) /\
     tagIds project = default (tagIds old) (newTagIds updates) /\
     kgResourceId project = default (kgResourceId old) (newKgResourceId updates) /\
     kgNoteId project = default (kgNoteId old) (newKgNoteId updates)).
Proof.
  intros before. split.
  - intros Hnone. unfold updateProject. fold before.
    now rewrite (proj2 (findIndex_none projectId (projects before)) Hnone).
  - intros Hsome. unfold updateProject. fold before.
    destruct (findIndex projectId (projects before)) as [idx|] eqn:Hidx.
    + destruct (findIndex_lookup _ _ _ Hidx) as (old & Hold & Hid & Hfirst).
      exists idx, old. rewrite Hold. simpl.
      assert (Hlt : (idx < length (projects before))%nat)
        by (eapply lookup_lt_Some; exact Hold).
      repeat split; auto.
      * apply length_insert.
      * now apply list_lookup_insert_eq.
      * intros j Hj. now apply list_lookup_insert_ne.
    + destruct Hsome as (p & Hin & Hp).
      now destruct (proj1 (findIndex_none _ _) Hidx p Hin).
Qed.

(** X17. The first project created is made the active one: after
    [createProject] on a registry without projects, [getActiveProject]
    returns the new project.  On a registry that has projects and whose
    active id is known, the selection is left as it was.  Either way the
    new project is added last. *)
Theorem create_activates_first (stored : Stored)
    (newId created updated name0 : string) (notebooks tags : list string) :
  let before := loadRegistry stored in
  let out := createProject newId created updated name0 notebooks tags stored in
  projects (getProjects out.1) = (projects before ++ [out.2])%list /\
  (projects before = [] -> newId <> "" -> getActiveProject out.1 = Some out.2) /\
  (projects before <> [] -> activeKnown before ->
   getActiveProject out.1 = getActiveProject stored).
Proof.
  intros before out. split; [reflexivity|]. split.
  - intros Hempty Hne. unfold out, getActiveProject, createProject.
    fold before. rewrite Hempty. simpl.
    destruct (String.eqb_spec newId ""); [congruence|]. simpl.
    unfold hasId. simpl. now rewrite String.eqb_refl.
  - intros Hsome Hknown. unfold out, getActiveProject, createProject.
    fold before. simpl.
    assert (Hlen : Nat.eqb (length (projects before ++
        [{| id := newId; name := name0; notebookIds := notebooks;
            tagIds := tags; kgResourceId := None; kgNoteId := None;
            createdAt := created; updatedAt := updated |}])) 1 = false).
    { rewrite length_app. simpl. destruct (projects before); [congruence|].
      simpl. apply Nat.eqb_neq. lia. }
    rewrite Hlen. unfold activeKnown in Hknown.
    destruct (activeProjectId before) as [active|]; [|reflexivity].
    destruct (negb (String.eqb active "")); [|reflexivity].
    apply find_hasId_known in Hknown as [p Hp]. rewrite Hp.
    revert Hp. generalize (projects before). clear.
    induction l as [|q l IH]; simpl; [discriminate|].
    destruct (hasId active q); [auto|exact IH].
Qed.

Lemma find_after_delete (active projectId : string) (ps : list ProjectConfig) :
  active <> projectId ->
  List.find (hasId active)
    (List.filter (fun p => negb (hasId projectId p)) ps)
  = List.find (hasId active) ps.
Proof.
  intros Hne. induction ps as [|p ps IH]; simpl; [reflexivity|].
  destruct (hasId projectId p) eqn:Hdeleted, (hasId active p) eqn:Hactive;
    simpl; rewrite ?Hactive; auto.
  unfold hasId in *.
  apply String.eqb_eq in Hdeleted, Hactive. congruence.
Qed.

(** X18. [deleteProject] removes the projects that have the id and keeps
    the others, in their order.  If the deleted id was the active one, the
    first remaining project becomes active, or none when none remains;
    otherwise the selection is left as it was. *)
Theorem delete_reselects (stored : Stored) (projectId : string) :
  let before := loadRegistry stored in
  let after := loadRegistry (deleteProject projectId stored) in
  (forall p, In p (projects after) <-> In p (projects before) /\ id p <> projectId) /\
  projects after
    = List.filter (fun p => negb (String.eqb (id p) projectId)) (projects before) /\
  (activeProjectId before = Some projectId ->
   activeProjectId after = id <$> head (projects after)) /\
  (activeProjectId before <> Some projectId ->
   activeProjectId after = activeProjectId before /\
   getActiveProject (deleteProject projectId stored) = getActiveProject stored).
Proof.
  intros before after. split; [|split; [reflexivity|split]].
  - intros p. unfold after. simpl. rewrite filter_In. unfold hasId.
    destruct (String.eqb_spec (id p) projectId); simpl; intuition congruence.
  - intros Hactive. unfold after. simpl. fold before. rewrite Hactive.
    rewrite String.eqb_refl. now destruct (List.filter _ _).
  - intros Hother. unfold after, getActiveProject. simpl. fold before.
    destruct (activeProjectId before) as [current|]; [|auto].
    destruct (String.eqb_spec current projectId) as [->|Hne]; [congruence|].
    split; [reflexivity|].
    destruct (negb (String.eqb current "")); [|reflexivity].
    now apply find_after_delete.
Qed.

(** X19. Creating a project under an id that no project has and deleting
    it again gives back the registry as it was, projects and selection,
    when the active id was known. *)
Theorem create_then_delete (stored : Stored)
    (newId created updated name0 : string) (notebooks tags : list string) :
  activeKnown (loadRegistry stored) ->
  (forall p, In p (projects (loadRegistry stored)) -> id p <> newId) ->
  deleteProject newId
    (createProject newId created updated name0 notebooks tags stored).1
  = saveRegistry (loadRegistry stored).
Proof.
  intros Hknown Hfresh. unfold deleteProject, createProject. simpl.
  set (before := loadRegistry stored) in *.
  assert (Hrest : List.filter (fun p => negb (hasId newId p))
            (projects before ++
             [{| id := newId; name := name0; notebookIds := notebooks;
                 tagIds := tags; kgResourceId := None; kgNoteId := None;
                 createdAt := created; updatedAt := updated |}])
          = projects before).
  { rewrite List.filter_app. simpl. unfold hasId at 2. simpl.
    rewrite String.eqb_refl. simpl. rewrite app_nil_r.
    apply forallb_filter_id, forallb_forall. intros p Hp.
    unfold hasId. now destruct (String.eqb_spec (id p) newId); [destruct (Hfresh p Hp)|]. }
  rewrite Hrest. unfold saveRegistry. f_equal.
  destruct before as [active ps]. simpl in *. f_equal.
  unfold activeKnown in Hknown. simpl in Hknown.
  rewrite length_app. simpl.
  destruct ps as [|p ps]; simpl.
  - rewrite String.eqb_refl. now destruct active as [a|]; [destruct Hknown as (? & [] & _)|].
  - rewrite (proj2 (Nat.eqb_neq (length ps + 1) 0)) by lia.
    destruct active as [a|]; [|reflexivity].
    destruct (String.eqb_spec a newId) as [->|]; [|reflexivity].
    destruct Hknown as (q & Hq & Hid). now destruct (Hfresh q Hq).
Qed.

End ProjectRegistryFacts.

(** ** The state along a run *)

Lemma threads_app (s s1 s2 : WorkflowState) (t1 t2 : list Event) :
  threads s t1 s1 -> threads s1 t2 s2 -> threads s (t1 ++ t2) s2.
Proof.
  induction 1; simpl; intros Hrest; try constructor; auto.
Qed.

Section RunnerState.

Context {World : Type}.
Variable graph : @WorkflowGraph World.
Variable context : @WorkflowContext World.

(** X21. The runner passes the state along and does not touch it, but to
    delete the marker before a breakpoint: the first step is given the
    initial state; each later step, and each progress call, is given what
    the step or handler before it returned; the handler is given the step's
    state less the marker; and [finalState] is the last of these states. *)
Theorem state_threaded (initialState : WorkflowState) (m : @Machine World) :
  trace m = [] ->
  threads initialState (trace (run graph context initialState m).1)
    (finalState (run graph context initialState m).2).
Proof.
  intros Hfresh.
  destruct (run_flow graph context
    (fun _ l m => threads initialState (trace m) (state l))
    (fun m f => threads initialState (trace m) (flowState f))
    initialState m) as (m' & f & -> & Hf).
  - intros _ l m0 H _. exact H.
  - intros _ i l m0 Hthread Hcur.
    phases;
      repeat match goal with
      | |- threads _ (trace _) _ => exact Hthread
      | |- threads _ (_ ++ _) _ => eapply threads_app
      | |- threads _ [] _ => apply threads_nil
      | |- threads _ (_ :: _) _ => econstructor
      end.
  - simpl. rewrite Hfresh. repeat constructor.
  - destruct f as [l|r|err l]; simpl in *;
      [unfold afterLoop; destruct (_ >=? _)%Z; simpl| |];
      try exact Hf;
      (eapply threads_app; [exact Hf|repeat constructor]).
Qed.

End RunnerState.

(** * The further properties at work *)

Module SamplesFacts.
Import Examples Samples.

Lemma cancelled_only_when_aborted_witness :
  signalAborted (cancelledFrom 0)
    (world (run (cycleGraph None) (cancelledFrom 0) drafted (boot 0)).1) = true /\
  is_Some (signal (cancelledFrom 0)).
Proof.
  apply (cancelled_only_when_aborted (cycleGraph None) (cancelledFrom 0)
           drafted (boot 0)).
  reflexivity.
Defined.

Lemma node_not_found_witness :
  run danglingGraph quiet ∅ (boot 0) =
  ({| world := 1%nat; runnerStatus := Error;
      trace := [EvStatus Running; EvExecute "draft" ∅ (Normal drafted)]
               ++ [EvStatus Error] |},
   {| status := Error; finalState := drafted;
      error := Some ("Node not found: " ++ "publish");
      nodesVisited := ["draft"] |}).
Proof.
  apply (node_not_found danglingGraph quiet ∅ (boot 0) 48 "publish"
           {| currentNodeId := Some "publish"; state := drafted;
              iterations := 1; visited := ["draft"] |}
           {| world := 1%nat; runnerStatus := Running;
              trace := [EvStatus Running; EvExecute "draft" ∅ (Normal drafted)] |}).
  - apply (reached_next danglingGraph quiet ∅ (boot 0) 49 "draft"
             (initialLocals danglingGraph ∅) _ (setStatus Running (boot 0)) _
             (reached_start _ _ _ _)); reflexivity.
  - reflexivity.
  - reflexivity.
  - reflexivity.
Defined.

Lemma nodesVisited_linked_witness :
  exists e, In e (edges reviewGraph) /\ from e = "review" /\ to e = "finalize".
Proof.
  apply (nodesVisited_linked reviewGraph quiet ∅ (boot 0) [] [] "review" "finalize").
  reflexivity.
Defined.

Lemma completed_at_sink_witness :
  let r := (run reviewGraph quiet ∅ (boot 0)).2 in
  error r = None /\
  Z.of_nat (length (nodesVisited r)) < maxIter reviewGraph /\
  exists a, last (nodesVisited r) = Some a /\
    forall e, In e (edges reviewGraph) -> from e = a ->
              enabled (finalState r) e = false.
Proof.
  apply (completed_at_sink reviewGraph quiet ∅ (boot 0)). reflexivity.
Defined.

Lemma status_protocol_witness :
  let t := trace (run reviewGraph (reviewed None) ∅ (boot 0)).1 in
  exists n ending,
    omap control t = (Wrote Running :: pauses n ++ ending)%list /\
    In ending endings /\
    n = length (List.filter handlerReturned t) /\
    (ending = brokenPause <->
     exists i s err, In (EvBreakpoint i s (Throws err)) t) /\
    atBreakpoints t /\
    (onBreakpoint (reviewed None) = None -> n = O /\ ending <> brokenPause).
Proof.
  apply (status_protocol reviewGraph (reviewed None) ∅ (boot 0)). reflexivity.
Defined.

Lemma progress_follows_steps_witness :
  omap progressed (trace (run reviewGraph withProgress ∅ (boot 0)).1) =
  match onProgress withProgress with
  | Some _ => omap stepped (trace (run reviewGraph withProgress ∅ (boot 0)).1)
  | None => []
  end.
Proof.
  apply (progress_follows_steps reviewGraph withProgress ∅ (boot 0)). reflexivity.
Defined.

Lemma state_threaded_witness :
  threads ∅ (trace (run reviewGraph (reviewed None) ∅ (boot 0)).1)
    (finalState (run reviewGraph (reviewed None) ∅ (boot 0)).2).
Proof.
  apply (state_threaded reviewGraph (reviewed None) ∅ (boot 0)). reflexivity.
Defined.

Lemma failingGraph_closed : closed failingGraph.
Proof. closed_by_lookup. Defined.

Lemma closed_graph_errors_witness :
  let m' := (run failingGraph quiet ∅ (boot 0)).1 in
  let r := (run failingGraph quiet ∅ (boot 0)).2 in
  error r
    = Some ("Max iterations (" ++ pretty (maxIter failingGraph) ++ ") exceeded") \/
  exists ev i s err,
    In ev (trace m') /\ failure ev = Some (i, s, err) /\
    error r = Some (errorText err).
Proof.
  apply (closed_graph_errors failingGraph quiet ∅ (boot 0) failingGraph_closed);
    reflexivity.
Defined.

Lemma dialogue_stages_witness :
  nodesVisited (run dialogueGraph quiet ∅ (boot 0)).2 = DialogueRefine.stages.
Proof.
  apply (proj2 (dialogue_stages quiet (stage "profiles") (stage "samples")
                  (stage "voice") (stage "refined") (stage "evaluated")
                  ∅ (boot 0))).
  reflexivity.
Defined.

Lemma brainstorm_stages_witness :
  let r := (run brainstormGraph quiet noBeatPicked (boot 0)).2 in
  nodesVisited r = BrainstormBeats.generation /\
    getProp (finalState r) "selectedBeatIndex" = JsNull \/
  nodesVisited r = (BrainstormBeats.generation ++ ["expandBeat"])%list.
Proof.
  apply (proj2 (brainstorm_stages quiet (stage "context") (stage "rag")
                  (stage "analysis") (stage "beats") (stage "expanded")
                  noBeatPicked (boot 0))).
  reflexivity.
Defined.

Lemma continuity_stages_witness :
  let r := (run continuityGraph quiet ∅ (boot 0)).2 in
  nodesVisited r = ["gatherCanon"; "audit"; "report"] \/
  nodesVisited r = ["gatherCanon"; "audit"; "repair"; "report"].
Proof.
  apply (proj2 (continuity_stages quiet (stage "canon") (stage "issues")
                  (stage "repaired") (stage "report") hasIssues ∅ (boot 0))).
  reflexivity.
Defined.

Lemma scene_stages_witness :
  exists k,
    nodesVisited (run sceneGraph quiet ∅ (boot 0)).2
      = (SceneDraft.opening ++ SceneDraft.revisions k ++ SceneDraft.closing)%list /\
    (k <= 5)%nat.
Proof.
  apply (proj2 (scene_stages quiet (stage "identified") (stage "constraints")
                  (stage "snippets") (stage "draft") (stage "checked")
                  (stage "deltas") (stage "revised") (stage "evaluated")
                  (stage "final") unrevised ∅ (boot 0))).
  reflexivity.
Defined.

(** The sample scene draft takes one round of revision. *)
Example scene_one_revision :
  nodesVisited (run sceneGraph quiet ∅ (boot 0)).2
  = (SceneDraft.opening ++ SceneDraft.revisions 1 ++ SceneDraft.closing)%list.
Proof. reflexivity. Qed.

Lemma twoProjects_known :
  ProjectRegistry.activeKnown (ProjectRegistry.loadRegistry twoProjects).
Proof. exists pilot. split; [now left|reflexivity]. Defined.

Lemma active_stays_known_witness :
  ProjectRegistry.activeKnown
    (ProjectRegistry.loadRegistry (ProjectRegistry.deleteProject "p1" twoProjects)) /\
  ProjectRegistry.getActiveProject (ProjectRegistry.deleteProject "p1" twoProjects)
    = Some sequel.
Proof.
  split; [|reflexivity].
  apply (ProjectRegistryFacts.active_stays_known twoProjects twoProjects_known).
Defined.

Lemma select_then_get_witness :
  "p2" <> "" /\
  (forall p,
     List.find (ProjectRegistry.hasId "p2")
       (ProjectRegistry.projects (ProjectRegistry.loadRegistry twoProjects))
       = Some p ->
     (ProjectRegistry.setActiveProject (Some "p2") twoProjects).2 = Normal tt /\
     ProjectRegistry.getActiveProject
       (ProjectRegistry.setActiveProject (Some "p2") twoProjects).1 = Some p) /\
  ProjectRegistry.getActiveProject
    (ProjectRegistry.setActiveProject (Some "p2") twoProjects).1 = Some sequel.
Proof.
  assert (Hne : "p2" <> "") by discriminate.
  split; [exact Hne|].
  destruct (ProjectRegistryFacts.select_then_get twoProjects "p2" Hne)
    as (Hfound & _ & _).
  split; [exact Hfound|]. now apply Hfound.
Defined.

Lemma update_rewrites_one_witness :
  ProjectRegistry.updateProject "2024-03-01T00:00:00.000Z" "p9" rename twoProjects
  = (twoProjects, Throws (newError ("Project not found: " ++ "p9"))).
Proof.
  apply (ProjectRegistryFacts.update_rewrites_one twoProjects
           "2024-03-01T00:00:00.000Z" "p9" rename).
  intros p [<-|[<-|[]]]; discriminate.
Defined.

Lemma create_activates_first_witness :
  let out := ProjectRegistry.createProject "k3x-9f2a" "2024-03-01T00:00:00.000Z"
               "2024-03-01T00:00:00.001Z" "Pilot" [] [] None in
  ProjectRegistry.getActiveProject out.1 = Some out.2.
Proof.
  apply (ProjectRegistryFacts.create_activates_first None "k3x-9f2a"
           "2024-03-01T00:00:00.000Z" "2024-03-01T00:00:00.001Z" "Pilot" [] []);
    [reflexivity|discriminate].
Defined.

Lemma delete_reselects_witness :
  let after := ProjectRegistry.loadRegistry
                 (ProjectRegistry.deleteProject "p1" twoProjects) in
  ProjectRegistry.activeProjectId after
  = ProjectRegistry.id <$> head (ProjectRegistry.projects after).
Proof.
  apply (ProjectRegistryFacts.delete_reselects twoProjects "p1"). reflexivity.
Defined.

Lemma create_then_delete_witness :
  ProjectRegistry.deleteProject "k3x-9f2a"
    (ProjectRegistry.createProject "k3x-9f2a" "2024-03-01T00:00:00.000Z"
       "2024-03-01T00:00:00.001Z" "Spin-off" [] ["t2"] twoProjects).1
  = ProjectRegistry.saveRegistry (ProjectRegistry.loadRegistry twoProjects).
Proof.
  apply (ProjectRegistryFacts.create_then_delete twoProjects "k3x-9f2a"
           "2024-03-01T00:00:00.000Z" "2024-03-01T00:00:00.001Z" "Spin-off"
           [] ["t2"] twoProjects_known).
  intros p [<-|[<-|[]]]; discriminate.
Defined.

End SamplesFacts.
